(** * Stock-Trading-Profit-Calculator: the two trade finders of
    [src/tradingAlgorithms.ts], embedded and verified.

    A price is a JavaScript number.  The finders use four things of a
    number: the literal [0], subtraction, [<] and [>]; they are written
    once, over any type that has these ([Num]), and read at two types:
    [float], IEEE-754 binary64 as the source runs it, and [Z], the same
    program in arithmetic that never rounds.

    An array is a list; an index is a [Z], because the source computes
    [prices.length - 1] (which is [-1] on the empty array) and starts
    [nextTradeStartIndex] at [-1].  Every read [prices[i]] of the source is
    a [get], which yields [None] when [i] is outside [0 .. length-1]; the
    finders run in the option monad, so a result [Some r] certifies that
    every read that was performed was in bounds. *)

From Stdlib Require Import ZArith List Lia Bool Sorted Floats.
From Equations Require Import Equations.
From Equations.Prop Require Import Logic.
Import ListNotations.
Open Scope Z_scope.

(** ** Numbers *)

Class Num (N : Type) : Type := {
  num_zero : N;
  num_sub : N -> N -> N;
  num_lt : N -> N -> bool;
  num_gt : N -> N -> bool
}.

(** binary64: [a > b] is [b < a], false when either is NaN. *)
#[export] Instance float_num : Num float := {|
  num_zero := 0%float;
  num_sub := PrimFloat.sub;
  num_lt := PrimFloat.ltb;
  num_gt := fun a b => PrimFloat.ltb b a
|}.

#[export] Instance Z_num : Num Z := {|
  num_zero := 0;
  num_sub := Z.sub;
  num_lt := Z.ltb;
  num_gt := Z.gtb
|}.

(** ** Arrays and the option monad *)

Definition len {A : Type} (p : list A) : Z := Z.of_nat (length p).

Definition get {A : Type} (p : list A) (i : Z) : option A :=
  if i <? 0 then None else nth_error p (Z.to_nat i).

Definition bind {A B : Type} (m : option A) (k : A -> option B) : option B :=
  match m with
  | Some a => k a
  | None => None
  end.

Notation "x <- m ;; k" := (bind m (fun x => k))
  (at level 61, m at next level, right associativity).

(** [for (let i = lo; i < hi; i++) body], for a body that assigns neither
    [i] nor [hi]: the body runs at [lo], [lo+1], ..., [hi-1]. *)
Fixpoint for_loop {S : Type} (k : nat) (i : Z) (body : Z -> S -> option S)
  (s : S) : option S :=
  match k with
  | O => Some s
  | Datatypes.S k' => s' <- body i s ;; for_loop k' (i + 1) body s'
  end.

Definition for_range {S : Type} (lo hi : Z) (body : Z -> S -> option S)
  (s : S) : option S :=
  for_loop (Z.to_nat (hi - lo)) lo body s.

Ltac run_reads H :=
  unfold bind in H;
  repeat match type of H with
         | context [match get ?p ?i with _ => _ end] =>
             let v := fresh "v" in
             let E := fresh "E" in
             destruct (get p i) as [v|] eqn:E; [|discriminate H]
         end.

Ltac split_ifs :=
  repeat match goal with
         | |- context [if ?c then _ else _] => destruct c eqn:?
         end.

Section Generic.
Context {N : Type} {num : Num N}.

(** ** findBestTrade: the quadratic finder with restarts *)

(** The local variables of [findBestTrade] other than the loop indices. *)
Record QState : Type := mkQ {
  bestBuyIndex : Z;
  bestSellIndex : Z;
  currentBestProfit : N;
  minPriceDrop : N;
  isOptimalFound : bool;
  nextTradeStartIndex : Z
}.

Definition qinit : QState := mkQ 0 0 num_zero num_zero true (-1).

Definition set_currentBestProfit (v : N) (st : QState) : QState :=
  mkQ (bestBuyIndex st) (bestSellIndex st) v (minPriceDrop st)
      (isOptimalFound st) (nextTradeStartIndex st).

Definition set_best (b s : Z) (st : QState) : QState :=
  mkQ b s (currentBestProfit st) (minPriceDrop st)
      (isOptimalFound st) (nextTradeStartIndex st).

Definition set_drop (d : N) (next : Z) (st : QState) : QState :=
  mkQ (bestBuyIndex st) (bestSellIndex st) (currentBestProfit st) d false next.

Definition reset_scan (st : QState) : QState :=
  mkQ (bestBuyIndex st) (bestSellIndex st) (currentBestProfit st) num_zero true
      (nextTradeStartIndex st).

(** Lines 34-60: one iteration of the inner loop. *)
Definition inner_body (p : list N) (currentIndex futureIndex : Z)
  (st : QState) : option QState :=
  pf <- get p futureIndex ;;
  pc <- get p currentIndex ;;
  let potentialProfit := num_sub pf pc in
  ps <- get p (bestSellIndex st) ;;
  pb <- get p (bestBuyIndex st) ;;
  let st := set_currentBestProfit (num_sub ps pb) st in
  let st := if num_gt potentialProfit (currentBestProfit st)
            then set_best currentIndex futureIndex st else st in
  let st := if num_lt potentialProfit (minPriceDrop st)
            then set_drop potentialProfit futureIndex st else st in
  Some st.

(** How one iteration of the outer loop ends: [return], or fall through to
    [currentIndex++] with the value [currentIndex] has at that point. *)
Inductive ctl : Type :=
| Stop (st : QState)
| Next (currentIndex : Z) (st : QState).

(** Lines 28-61: the resets and the inner loop. *)
Definition scan (p : list N) (currentIndex : Z) (st : QState) : option QState :=
  for_range (currentIndex + 1) (len p) (inner_body p currentIndex)
            (reset_scan st).

(** Lines 65-77: early return, or the restart. *)
Definition restart (p : list N) (currentIndex : Z) (st : QState) : ctl :=
  if isOptimalFound st then Stop st
  else if (nextTradeStartIndex st >=? 1) && (nextTradeStartIndex st <=? len p - 2)
       then Next (nextTradeStartIndex st - 1) st
       else Next currentIndex st.

Definition outer_body (p : list N) (currentIndex : Z) (st : QState) : option ctl :=
  st' <- scan p currentIndex st ;;
  Some (restart p currentIndex st').

(** ** Two rewritings of the inner comparison

    [findBestTrade] recomputes [currentBestProfit] from the current best
    pair in every inner iteration (line 37).  Two rewritings that compute
    it once per outer iteration are compared with it below. *)

(** The baseline, computed from the best pair before the inner loop. *)
Definition hoist (p : list N) (st : QState) : option QState :=
  ps <- get p (bestSellIndex st) ;;
  pb <- get p (bestBuyIndex st) ;;
  Some (set_currentBestProfit (num_sub ps pb) st).

(** Hoisted: line 37 moved out of the inner loop, nothing else changed. *)
Definition inner_body_hoisted (p : list N) (currentIndex futureIndex : Z)
  (st : QState) : option QState :=
  pf <- get p futureIndex ;;
  pc <- get p currentIndex ;;
  let potentialProfit := num_sub pf pc in
  let st := if num_gt potentialProfit (currentBestProfit st)
            then set_best currentIndex futureIndex st else st in
  let st := if num_lt potentialProfit (minPriceDrop st)
            then set_drop potentialProfit futureIndex st else st in
  Some st.

Definition outer_body_hoisted (p : list N) (currentIndex : Z) (st : QState)
  : option ctl :=
  st0 <- hoist p (reset_scan st) ;;
  st' <- for_range (currentIndex + 1) (len p)
                   (inner_body_hoisted p currentIndex) st0 ;;
  Some (restart p currentIndex st').

(** Cached: as hoisted, and the baseline follows the best pair when the
    inner loop replaces it. *)
Definition inner_body_cached (p : list N) (currentIndex futureIndex : Z)
  (st : QState) : option QState :=
  pf <- get p futureIndex ;;
  pc <- get p currentIndex ;;
  let potentialProfit := num_sub pf pc in
  let st := if num_gt potentialProfit (currentBestProfit st)
            then set_currentBestProfit potentialProfit
                   (set_best currentIndex futureIndex st)
            else st in
  let st := if num_lt potentialProfit (minPriceDrop st)
            then set_drop potentialProfit futureIndex st else st in
  Some st.

Definition outer_body_cached (p : list N) (currentIndex : Z) (st : QState)
  : option ctl :=
  st0 <- hoist p (reset_scan st) ;;
  st' <- for_range (currentIndex + 1) (len p)
                   (inner_body_cached p currentIndex) st0 ;;
  Some (restart p currentIndex st').

(** ** findBestTradeFast: the single pass *)

Record FState : Type := mkF {
  minPriceIndex : Z;
  maxProfit : N;
  fastBuyIndex : Z;
  fastSellIndex : Z
}.

Definition finit : FState := mkF 0 num_zero 0 0.

(** Lines 111-122: one iteration of the pass. *)
Definition fast_body (p : list N) (i : Z) (st : FState) : option FState :=
  pi <- get p i ;;
  pm <- get p (minPriceIndex st) ;;
  if num_lt pi pm then
    Some (mkF i (maxProfit st) (fastBuyIndex st) (fastSellIndex st))
  else
    pi' <- get p i ;;
    pm' <- get p (minPriceIndex st) ;;
    let currentProfit := num_sub pi' pm' in
    if num_gt currentProfit (maxProfit st) then
      Some (mkF (minPriceIndex st) currentProfit (minPriceIndex st) i)
    else Some st.

Definition findBestTradeFast (p : list N) : option (Z * Z) :=
  if len p <? 2 then Some (0, 0)
  else
    st <- for_range 1 (len p) (fast_body p) finit ;;
    Some (fastBuyIndex st, fastSellIndex st).

(** ** Prices, pairs and profit *)

(** The price at an index; [0] outside the array, so that the realized
    profit of [(0,0)] on the empty array is [0 - 0]. *)
Definition price (p : list N) (i : Z) : N := nth (Z.to_nat i) p num_zero.

(** Realized profit of a returned pair: [p[sell] - p[buy]]. *)
Definition profit (p : list N) (r : Z * Z) : N :=
  num_sub (price p (snd r)) (price p (fst r)).

Definition valid_pair (p : list N) (buy sell : Z) : Prop :=
  0 <= buy < sell /\ sell < len p.

(** ** Invariants on indices *)

(** After a scan from [currentIndex], a lowered flag means the drop branch
    ran at some [futureIndex > currentIndex], which is where
    [nextTradeStartIndex] now points. *)
Definition drop_seen (currentIndex : Z) (st : QState) : Prop :=
  isOptimalFound st = false -> currentIndex < nextTradeStartIndex st.

(** The best pair of [findBestTrade] is [(0,0)] or a pair buy < sell of
    the array. *)
Definition Qidx (p : list N) (st : QState) : Prop :=
  (bestBuyIndex st = 0 /\ bestSellIndex st = 0) \/
  valid_pair p (bestBuyIndex st) (bestSellIndex st).

(** Before the iteration at [i] of the single pass: the tracked minimum
    and the recorded pair lie in the prefix. *)
Definition Fidx (i : Z) (st : FState) : Prop :=
  0 <= minPriceIndex st < i /\
  ((fastBuyIndex st = 0 /\ fastSellIndex st = 0) \/
   (0 <= fastBuyIndex st < fastSellIndex st /\ fastSellIndex st < i)).

(** The states of the cached rewriting and of [findBestTrade] agree on
    everything but the baseline. *)
Definition same_but_baseline (a b : QState) : Prop :=
  bestBuyIndex a = bestBuyIndex b /\ bestSellIndex a = bestSellIndex b /\
  minPriceDrop a = minPriceDrop b /\ isOptimalFound a = isOptimalFound b /\
  nextTradeStartIndex a = nextTradeStartIndex b.

(** Inside the inner loop the cached baseline is what line 37 would
    recompute. *)
Definition cache_ok (p : list N) (c o : QState) : Prop :=
  same_but_baseline c o /\ Qidx p o /\
  currentBestProfit c =
  num_sub (price p (bestSellIndex o)) (price p (bestBuyIndex o)).

(** ** Loop rules *)

Section ForLoop.
Context {S : Type}.
Variable body : Z -> S -> option S.

(** The invariant rule: an invariant that every in-range iteration
    re-establishes (without faulting) holds when the loop is left. *)
Lemma for_loop_inv (I : Z -> S -> Prop) :
  forall (k : nat) (lo : Z) (s : S),
    I lo s ->
    (forall i s0, lo <= i < lo + Z.of_nat k -> I i s0 ->
                  exists s1, body i s0 = Some s1 /\ I (i + 1) s1) ->
    exists s', for_loop k lo body s = Some s' /\ I (lo + Z.of_nat k) s'.
Proof.
  induction k as [|k IH]; intros lo s H0 Hstep.
  - exists s. split; [reflexivity|]. now replace (lo + Z.of_nat 0) with lo by lia.
  - destruct (Hstep lo s) as (s1 & Hb & H1); [lia | assumption |].
    destruct (IH (lo + 1) s1 H1) as (s' & Hl & H').
    + intros i s0 Hi. apply Hstep. lia.
    + exists s'. split.
      * simpl. rewrite Hb. exact Hl.
      * now replace (lo + Z.of_nat (Datatypes.S k)) with (lo + 1 + Z.of_nat k) by lia.
Qed.

Lemma for_range_inv (I : Z -> S -> Prop) (lo hi : Z) (s : S) :
  lo <= hi ->
  I lo s ->
  (forall i s0, lo <= i < hi -> I i s0 ->
                exists s1, body i s0 = Some s1 /\ I (i + 1) s1) ->
  exists s', for_range lo hi body s = Some s' /\ I hi s'.
Proof.
  intros Hle H0 Hstep. unfold for_range.
  destruct (for_loop_inv I (Z.to_nat (hi - lo)) lo s H0) as (s' & Hl & H').
  - intros i s0 Hi. apply Hstep. lia.
  - exists s'. split; [exact Hl|].
    replace (lo + Z.of_nat (Z.to_nat (hi - lo))) with hi in H' by lia.
    exact H'.
Qed.

(** A property of the state that every iteration preserves, whether or
    not the loop faults. *)
Lemma for_loop_preserves (P : S -> Prop) (lo0 : Z) :
  (forall i s0 s1, lo0 <= i -> body i s0 = Some s1 -> P s0 -> P s1) ->
  forall (k : nat) (lo : Z) (s s' : S),
    lo0 <= lo -> P s -> for_loop k lo body s = Some s' -> P s'.
Proof.
  intros Hstep. induction k as [|k IH]; intros lo s s' Hlo Hs Hrun; simpl in Hrun.
  - now inversion Hrun; subst.
  - destruct (body lo s) as [s1|] eqn:Hb; simpl in Hrun; [|discriminate].
    apply (IH (lo + 1) s1 s'); [lia | | exact Hrun].
    eapply Hstep; eauto.
Qed.
End ForLoop.

(** ** The next outer index exceeds the current one *)

Lemma inner_body_drop p cur fut st st' :
  cur < fut -> inner_body p cur fut st = Some st' ->
  drop_seen cur st -> drop_seen cur st'.
Proof.
  unfold inner_body, drop_seen. intros Hlt Hb Hd. run_reads Hb.
  inversion Hb; subst; clear Hb. split_ifs; simpl; intros; auto; lia.
Qed.

Lemma inner_body_hoisted_drop p cur fut st st' :
  cur < fut -> inner_body_hoisted p cur fut st = Some st' ->
  drop_seen cur st -> drop_seen cur st'.
Proof.
  unfold inner_body_hoisted, drop_seen. intros Hlt Hb Hd. run_reads Hb.
  inversion Hb; subst; clear Hb. split_ifs; simpl; intros; auto; lia.
Qed.

Lemma inner_body_cached_drop p cur fut st st' :
  cur < fut -> inner_body_cached p cur fut st = Some st' ->
  drop_seen cur st -> drop_seen cur st'.
Proof.
  unfold inner_body_cached, drop_seen. intros Hlt Hb Hd. run_reads Hb.
  inversion Hb; subst; clear Hb. split_ifs; simpl; intros; auto; lia.
Qed.

Lemma inner_loop_drop (body : list N -> Z -> Z -> QState -> option QState) p cur :
  (forall fut st st', cur < fut -> body p cur fut st = Some st' ->
                      drop_seen cur st -> drop_seen cur st') ->
  forall st st',
    isOptimalFound st = true ->
    for_range (cur + 1) (len p) (body p cur) st = Some st' ->
    drop_seen cur st'.
Proof.
  intros Hbody st st' Hflag Hrun. unfold for_range in Hrun.
  eapply (for_loop_preserves (body p cur) (drop_seen cur) (cur + 1));
    [| | | exact Hrun].
  - intros i s0 s1 Hi Hb. apply (Hbody i s0 s1); [lia | exact Hb].
  - lia.
  - unfold drop_seen. rewrite Hflag. discriminate.
Qed.

Lemma scan_drop p cur st st' : scan p cur st = Some st' -> drop_seen cur st'.
Proof.
  unfold scan. apply inner_loop_drop; [apply inner_body_drop | reflexivity].
Qed.

Lemma restart_advances p cur st cur' st' :
  drop_seen cur st -> restart p cur st = Next cur' st' -> cur < cur' + 1.
Proof.
  unfold restart, drop_seen. intros Hd Hr.
  destruct (isOptimalFound st); [discriminate|]. specialize (Hd eq_refl).
  destruct (_ && _); inversion Hr; subst; lia.
Qed.

(** The index the next outer iteration starts from exceeds this one's. *)
Lemma outer_body_advances p cur st cur' st' :
  outer_body p cur st = Some (Next cur' st') -> cur < cur' + 1.
Proof.
  unfold outer_body, bind. destruct (scan p cur st) as [s1|] eqn:Hs; [|discriminate].
  intros H. inversion H as [Hr]. apply scan_drop in Hs.
  exact (restart_advances _ _ _ _ _ Hs Hr).
Qed.

Lemma hoist_flag p st st' :
  hoist p st = Some st' -> isOptimalFound st' = isOptimalFound st.
Proof.
  unfold hoist. intros H. run_reads H. now inversion H.
Qed.

Lemma outer_body_hoisted_advances p cur st cur' st' :
  outer_body_hoisted p cur st = Some (Next cur' st') -> cur < cur' + 1.
Proof.
  unfold outer_body_hoisted, bind.
  destruct (hoist p (reset_scan st)) as [s0|] eqn:Hh; [|discriminate].
  destruct (for_range _ _ _ s0) as [s1|] eqn:Hs; [|discriminate].
  intros H. inversion H as [Hr]. apply hoist_flag in Hh.
  apply (inner_loop_drop inner_body_hoisted) in Hs;
    [exact (restart_advances _ _ _ _ _ Hs Hr) | apply inner_body_hoisted_drop | exact Hh].
Qed.

Lemma outer_body_cached_advances p cur st cur' st' :
  outer_body_cached p cur st = Some (Next cur' st') -> cur < cur' + 1.
Proof.
  unfold outer_body_cached, bind.
  destruct (hoist p (reset_scan st)) as [s0|] eqn:Hh; [|discriminate].
  destruct (for_range _ _ _ s0) as [s1|] eqn:Hs; [|discriminate].
  intros H. inversion H as [Hr]. apply hoist_flag in Hh.
  apply (inner_loop_drop inner_body_cached) in Hs;
    [exact (restart_advances _ _ _ _ _ Hs Hr) | apply inner_body_cached_drop | exact Hh].
Qed.

(** ** The outer loop *)

(** Lines 27-81.  The loop runs while [currentIndex < prices.length - 1];
  its body may assign [currentIndex], so it is defined by well-founded
  recursion on the remaining length [prices.length - currentIndex], for
  any body whose next index exceeds the current one. *)
Section OuterLoop.
Variable body : list N -> Z -> QState -> option ctl.
Hypothesis body_advances : forall p cur st cur' st',
    body p cur st = Some (Next cur' st') -> cur < cur' + 1.

Equations? outer_loop (p : list N) (currentIndex : Z) (st : QState)
  : option QState by wf (Z.to_nat (len p - currentIndex)) lt :=
  outer_loop p currentIndex st with inspect (currentIndex <? len p - 1) := {
    | exist _ false _ => Some st
    | exist _ true Hc with inspect (body p currentIndex st) := {
        | exist _ None _ => None
        | exist _ (Some (Stop st')) _ => Some st'
        | exist _ (Some (Next currentIndex' st')) Hb =>
            outer_loop p (currentIndex' + 1) st' } }.
Proof.
  apply body_advances in Hb. apply Z.ltb_lt in Hc. lia.
Qed.

(** The same loop with a budget of body executions, recording the
    indices the body ran at.  [None] in the second component: the budget
    ran out before the loop was left. *)
Fixpoint outer_run (fuel : nat) (p : list N) (currentIndex : Z) (st : QState)
  : list Z * option (option QState) :=
  if currentIndex <? len p - 1 then
    match fuel with
    | O => ([], None)
    | S fuel' =>
        match body p currentIndex st with
        | None => ([currentIndex], Some None)
        | Some (Stop st') => ([currentIndex], Some (Some st'))
        | Some (Next currentIndex' st') =>
            let (visited, r) := outer_run fuel' p (currentIndex' + 1) st' in
            (currentIndex :: visited, r)
        end
    end
  else ([], Some (Some st)).

(** The loop, unfolded once. *)
Lemma outer_loop_eq p cur st :
  outer_loop p cur st =
  if cur <? len p - 1 then
    match body p cur st with
    | None => None
    | Some (Stop st') => Some st'
    | Some (Next cur' st') => outer_loop p (cur' + 1) st'
    end
  else Some st.
Proof.
  funelim (outer_loop p cur st);
    repeat match goal with
           | H : (_ <? _) = _ |- _ => rewrite H
           | H : body _ _ _ = _ |- _ => rewrite H
           end; reflexivity.
Qed.
End OuterLoop.

(** ** The finders *)

Definition pair_of (st : QState) : Z * Z := (bestBuyIndex st, bestSellIndex st).

(** [findBestTrade]: both [return] statements yield
    [[bestBuyIndex, bestSellIndex]]. *)
Definition findBestTrade (p : list N) : option (Z * Z) :=
  st <- outer_loop outer_body outer_body_advances p 0 qinit ;;
  Some (pair_of st).

Definition findBestTradeHoisted (p : list N) : option (Z * Z) :=
  st <- outer_loop outer_body_hoisted outer_body_hoisted_advances p 0 qinit ;;
  Some (pair_of st).

Definition findBestTradeCached (p : list N) : option (Z * Z) :=
  st <- outer_loop outer_body_cached outer_body_cached_advances p 0 qinit ;;
  Some (pair_of st).

(** The outer indices [findBestTrade] runs its body at, and whether a
    budget of [fuel] body executions was enough. *)
Definition findBestTrade_run (fuel : nat) (p : list N)
  : list Z * option (option QState) :=
  outer_run outer_body fuel p 0 qinit.

(** ** Reads *)

Lemma get_in p i : 0 <= i < len p -> get p i = Some (price p i).
Proof.
  unfold get, price, len. intros Hi.
  destruct (i <? 0) eqn:Hn; [apply Z.ltb_lt in Hn; lia|].
  apply nth_error_nth'. lia.
Qed.

Lemma get_Some p i v : get p i = Some v -> 0 <= i < len p /\ v = price p i.
Proof.
  unfold get, price, len. destruct (i <? 0) eqn:Hn; [discriminate|].
  apply Z.ltb_ge in Hn. intros H.
  assert (Hlt : (Z.to_nat i < length p)%nat)
    by (apply nth_error_Some; rewrite H; discriminate).
  split; [lia|]. symmetry. now apply nth_error_nth.
Qed.

Lemma get_None (p : list N) i : get p i = None <-> ~ (0 <= i < len p).
Proof.
  split.
  - intros H Hi. rewrite (get_in p i Hi) in H. discriminate.
  - intros H. destruct (get p i) as [v|] eqn:E; [|reflexivity].
    apply get_Some in E. tauto.
Qed.


(** ** The results are indices of the array *)

Lemma Qidx_reads p st :
  0 < len p -> Qidx p st ->
  0 <= bestBuyIndex st < len p /\ 0 <= bestSellIndex st < len p.
Proof.
  unfold Qidx, valid_pair. intros Hn [[-> ->]|Hv]; lia.
Qed.

Ltac qsimpl :=
  cbn [bestBuyIndex bestSellIndex currentBestProfit minPriceDrop isOptimalFound
       nextTradeStartIndex set_best set_drop set_currentBestProfit reset_scan] in *.

Lemma inner_body_idx p cur fut st :
  0 <= cur < fut -> fut < len p -> Qidx p st ->
  exists st', inner_body p cur fut st = Some st' /\ Qidx p st'.
Proof.
  intros Hc Hf Hg.
  destruct (Qidx_reads p st) as (Hb & Hs); [lia | exact Hg |].
  unfold inner_body.
  rewrite (get_in p fut), (get_in p cur), (get_in p (bestSellIndex st)),
    (get_in p (bestBuyIndex st)) by lia.
  cbn [bind]. eexists. split; [reflexivity|].
  unfold Qidx, valid_pair in *. split_ifs; qsimpl; lia.
Qed.

Lemma scan_idx p cur st :
  0 <= cur < len p - 1 -> Qidx p st ->
  exists st', scan p cur st = Some st' /\ Qidx p st'.
Proof.
  intros Hc Hg. unfold scan.
  apply (for_range_inv (inner_body p cur) (fun _ s => Qidx p s)).
  - lia.
  - exact Hg.
  - intros i s0 Hi Hs0. apply inner_body_idx; [lia | lia | exact Hs0].
Qed.

Lemma restart_index p cur st cur' st' :
  0 <= cur -> restart p cur st = Next cur' st' -> 0 <= cur' + 1 /\ st' = st.
Proof.
  unfold restart. intros Hc Hr. destruct (isOptimalFound st); [discriminate|].
  destruct (_ && _) eqn:Hj; inversion Hr; subst; (split; [|reflexivity]).
  - apply andb_prop in Hj. lia.
  - lia.
Qed.

Lemma restart_stop p cur st st' : restart p cur st = Stop st' -> st' = st.
Proof.
  unfold restart. destruct (isOptimalFound st); [now inversion 1|].
  destruct (_ && _); discriminate.
Qed.

(** The rule of the outer loop: an invariant of the states the body is
    entered with gives a postcondition for every way out. *)
Lemma outer_loop_rule body adv (I : Z -> QState -> Prop) (R : QState -> Prop) p :
  (forall cur st, I cur st -> len p - 1 <= cur -> R st) ->
  (forall cur st, I cur st -> cur < len p - 1 ->
     exists c, body p cur st = Some c /\
       match c with
       | Stop st' => R st'
       | Next cur' st' => I (cur' + 1) st'
       end) ->
  forall cur st, I cur st ->
    exists st', outer_loop body adv p cur st = Some st' /\ R st'.
Proof.
  intros Hexit Hstep.
  assert (H : forall (n : nat) cur st, (Z.to_nat (len p - cur) <= n)%nat ->
            I cur st ->
            exists st', outer_loop body adv p cur st = Some st' /\ R st').
  { induction n as [|n IH]; intros cur st Hn HI; rewrite outer_loop_eq;
      destruct (cur <? len p - 1) eqn:Hc;
      try (apply Z.ltb_ge in Hc; exists st; split; [reflexivity | now apply (Hexit cur)]);
      apply Z.ltb_lt in Hc; [lia|].
    destruct (Hstep cur st HI Hc) as (c & Hb & Hpost). rewrite Hb.
    destruct c as [st'|cur' st'].
    - exists st'. now split.
    - apply IH; [|exact Hpost]. apply adv in Hb. lia. }
  intros cur st. now apply (H (Z.to_nat (len p - cur))).
Qed.

Lemma findBestTrade_idx p :
  exists b s, findBestTrade p = Some (b, s) /\
              ((b = 0 /\ s = 0) \/ valid_pair p b s).
Proof.
  destruct (outer_loop_rule outer_body outer_body_advances
              (fun cur st => 0 <= cur /\ Qidx p st) (Qidx p) p)
    with (cur := 0) (st := qinit) as (st' & Hrun & Hg).
  - now intros cur st [_ Hg] _.
  - intros cur st [Hc Hg] Hlt.
    destruct (scan_idx p cur st) as (s1 & Hs & Hg1); [lia | exact Hg |].
    exists (restart p cur s1). split; [unfold outer_body; now rewrite Hs|].
    destruct (restart p cur s1) as [st'|cur' st'] eqn:Hr.
    + apply restart_stop in Hr. now subst.
    + apply restart_index in Hr; [|exact Hc]. destruct Hr as [Hi ->]. now split.
  - split; [lia|]. left. now split.
  - exists (bestBuyIndex st'), (bestSellIndex st'). split; [|exact Hg].
    unfold findBestTrade. now rewrite Hrun.
Qed.

Lemma fast_body_idx p i st :
  1 <= i < len p -> Fidx i st ->
  exists st', fast_body p i st = Some st' /\ Fidx (i + 1) st'.
Proof.
  intros Hi (Hm & Hpair). unfold fast_body.
  rewrite !(get_in p i), !(get_in p (minPriceIndex st)) by lia. cbn [bind].
  unfold Fidx.
  destruct (num_lt _ _); [|destruct (num_gt _ _)];
    (eexists; split; [reflexivity|]);
    cbn [minPriceIndex maxProfit fastBuyIndex fastSellIndex]; lia.
Qed.

Lemma findBestTradeFast_idx p :
  exists b s, findBestTradeFast p = Some (b, s) /\
              ((b = 0 /\ s = 0) \/ valid_pair p b s).
Proof.
  unfold findBestTradeFast. destruct (len p <? 2) eqn:Hn.
  - exists 0, 0. split; [reflexivity | now left].
  - apply Z.ltb_ge in Hn.
    destruct (for_range_inv (fast_body p) Fidx 1 (len p) finit)
      as (st & Hrun & (Hm & Hpair)).
    + lia.
    + unfold Fidx, finit. cbn [minPriceIndex maxProfit fastBuyIndex fastSellIndex]. lia.
    + intros i s0 Hi Hs0. now apply fast_body_idx.
    + exists (fastBuyIndex st), (fastSellIndex st). rewrite Hrun. cbn [bind].
      split; [reflexivity|]. unfold valid_pair. lia.
Qed.

(** ** The budgeted run and the recursion agree *)

Lemma outer_run_spec body adv p :
  forall (fuel : nat) cur st,
    (Z.to_nat (len p - 1 - cur) <= fuel)%nat ->
    snd (outer_run body fuel p cur st) = Some (outer_loop body adv p cur st) /\
    Forall (fun c => cur <= c < len p - 1) (fst (outer_run body fuel p cur st)) /\
    StronglySorted Z.lt (fst (outer_run body fuel p cur st)) /\
    (length (fst (outer_run body fuel p cur st)) <= Z.to_nat (len p - 1 - cur))%nat.
Proof.
  induction fuel as [|fuel IH]; intros cur st Hfuel; rewrite outer_loop_eq;
    cbn [outer_run]; destruct (cur <? len p - 1) eqn:Hc;
    try (cbn; repeat split; [constructor | constructor | lia]);
    apply Z.ltb_lt in Hc; [lia|].
  destruct (body p cur st) as [[st'|cur' st']|] eqn:Hb.
  - cbn. repeat split; [repeat constructor; lia | repeat constructor | lia].
  - pose proof (adv _ _ _ _ _ Hb) as Hadv.
    destruct (IH (cur' + 1) st') as (Hr & Hall & Hsorted & Hlen); [lia|].
    destruct (outer_run body fuel p (cur' + 1) st') as [visited r].
    cbn [fst snd] in *. repeat split.
    + exact Hr.
    + constructor; [lia|]. eapply Forall_impl; [|exact Hall]. cbn. intros; lia.
    + constructor; [exact Hsorted|].
      eapply Forall_impl; [|exact Hall]. cbn. intros; lia.
    + cbn [length]. lia.
  - cbn. repeat split; [repeat constructor; lia | repeat constructor | lia].
Qed.

(** ** The cached rewriting simulates findBestTrade *)

Lemma for_loop_rel {S T : Type} (b1 : Z -> S -> option S) (b2 : Z -> T -> option T)
  (R : S -> T -> Prop) :
  forall (k : nat) lo s t,
    R s t ->
    (forall i s0 t0, lo <= i < lo + Z.of_nat k -> R s0 t0 ->
       exists s1 t1, b1 i s0 = Some s1 /\ b2 i t0 = Some t1 /\ R s1 t1) ->
    exists s' t', for_loop k lo b1 s = Some s' /\ for_loop k lo b2 t = Some t' /\
                  R s' t'.
Proof.
  induction k as [|k IH]; intros lo s t HR Hstep.
  - exists s, t. now repeat split.
  - destruct (Hstep lo s t) as (s1 & t1 & H1 & H2 & HR1); [lia | exact HR |].
    destruct (IH (lo + 1) s1 t1 HR1) as (s' & t' & Hs & Ht & HR').
    + intros i s0 t0 Hi. apply Hstep. lia.
    + exists s', t'. cbn [for_loop]. rewrite H1, H2. cbn [bind]. now repeat split.
Qed.

Lemma inner_body_cached_sim p cur fut c o :
  0 <= cur < fut -> fut < len p -> cache_ok p c o ->
  exists c' o', inner_body_cached p cur fut c = Some c' /\
                inner_body p cur fut o = Some o' /\ cache_ok p c' o'.
Proof.
  intros Hc Hf ((Eb & Es & Ed & Eo & En) & Hg & Hcache).
  destruct (Qidx_reads p o) as (Hb & Hs); [lia | exact Hg |].
  unfold inner_body_cached, inner_body.
  rewrite (get_in p fut), (get_in p cur), (get_in p (bestSellIndex o)),
    (get_in p (bestBuyIndex o)) by lia.
  cbn [bind]. do 2 eexists. split; [reflexivity|]. split; [reflexivity|].
  destruct c as [cb cs cp cd co cn], o as [ob os op od oo on].
  unfold cache_ok, same_but_baseline, Qidx, valid_pair in *. qsimpl. subst.
  destruct (num_gt (num_sub (price p fut) (price p cur))
              (num_sub (price p os) (price p ob)));
    qsimpl; destruct (num_lt _ _); qsimpl;
    repeat split; first [reflexivity | lia].
Qed.

Lemma outer_body_cached_sim p cur c o :
  0 <= cur < len p - 1 -> same_but_baseline c o -> Qidx p o ->
  exists rc ro, outer_body_cached p cur c = Some rc /\
                outer_body p cur o = Some ro /\
                match rc, ro with
                | Stop c', Stop o' => same_but_baseline c' o' /\ Qidx p o'
                | Next i c', Next j o' =>
                    i = j /\ 0 <= i + 1 /\ same_but_baseline c' o' /\ Qidx p o'
                | _, _ => False
                end.
Proof.
  intros Hc (Eb & Es & Ed & Eo & En) Hg.
  destruct (Qidx_reads p o) as (Hb & Hs); [lia | exact Hg |].
  unfold outer_body_cached, outer_body, scan, hoist, for_range.
  cbn [bestBuyIndex bestSellIndex reset_scan].
  rewrite (get_in p (bestSellIndex c)), (get_in p (bestBuyIndex c)) by lia.
  cbn [bind].
  match goal with
  | |- context [for_loop ?k ?lo (inner_body_cached p cur) ?c0] =>
      destruct (for_loop_rel (inner_body_cached p cur) (inner_body p cur)
                  (cache_ok p) k lo c0 (reset_scan o))
        as (c' & o' & Hrc & Hro & ((Eb' & Es' & Ed' & Eo' & En') & Hg' & _))
  end.
  - unfold cache_ok, same_but_baseline, Qidx. cbn. rewrite Eb, Es.
    repeat split; assumption || reflexivity.
  - intros i s0 t0 Hi. apply inner_body_cached_sim; lia.
  - rewrite Hrc, Hro. cbn [bind].
    exists (restart p cur c'), (restart p cur o'). split; [reflexivity|].
    split; [reflexivity|]. unfold restart. rewrite Eo', En'.
    unfold same_but_baseline. destruct (isOptimalFound o') eqn:Ho'.
    + repeat split; congruence || assumption.
    + destruct (_ && _) eqn:Hj.
      * apply andb_prop in Hj. repeat split; congruence || assumption || lia.
      * repeat split; congruence || assumption || lia.
Qed.

Lemma outer_loop_cached_sim p :
  forall (n : nat) cur c o,
    (Z.to_nat (len p - cur) <= n)%nat -> 0 <= cur ->
    same_but_baseline c o -> Qidx p o ->
    exists c' o',
      outer_loop outer_body_cached outer_body_cached_advances p cur c = Some c' /\
      outer_loop outer_body outer_body_advances p cur o = Some o' /\
      same_but_baseline c' o'.
Proof.
  induction n as [|n IH]; intros cur c o Hn Hc Hsame Hg;
    rewrite !outer_loop_eq; destruct (cur <? len p - 1) eqn:Hlt;
    try (exists c, o; split; [reflexivity | split; [reflexivity | exact Hsame]]);
    apply Z.ltb_lt in Hlt; [lia|].
  destruct (outer_body_cached_sim p cur c o) as (rc & ro & Hrc & Hro & Hrel);
    [lia | exact Hsame | exact Hg |].
  rewrite Hrc, Hro.
  destruct rc as [c'|i c'], ro as [o'|j o']; try contradiction.
  - exists c', o'. split; [reflexivity | split; [reflexivity | apply Hrel]].
  - destruct Hrel as (-> & Hi & Hsame' & Hg').
    apply IH; try assumption. apply outer_body_advances in Hro. lia.
Qed.

End Generic.

Arguments QState : clear implicits.
Arguments FState : clear implicits.
Arguments ctl : clear implicits.

Ltac qsimpl :=
  cbn [bestBuyIndex bestSellIndex currentBestProfit minPriceDrop isOptimalFound
       nextTradeStartIndex set_best set_drop set_currentBestProfit reset_scan] in *.

(** * Exact arithmetic: the finders on integers *)

(** ** What the finders are specified against *)

Definition maximal_pair (p : list Z) (buy sell : Z) : Prop :=
  valid_pair p buy sell /\
  forall i j, valid_pair p i j -> profit p (i, j) <= profit p (buy, sell).

Definition profitable (p : list Z) : Prop :=
  exists i j, valid_pair p i j /\ 0 < profit p (i, j).

(** ** Invariants on prices *)

(** The best pair of [findBestTrade] is [(0,0)] or a strictly profitable pair. *)
Definition Qgood (p : list Z) (st : QState Z) : Prop :=
  (bestBuyIndex st = 0 /\ bestSellIndex st = 0) \/
  (valid_pair p (bestBuyIndex st) (bestSellIndex st) /\
   price p (bestBuyIndex st) < price p (bestSellIndex st)).

(** Before the iteration at [i]: [minPriceIndex] is a minimum of the
    prefix, [maxProfit] is the profit of the recorded pair, which is
    [(0,0)] or a strictly profitable pair of the prefix, and no pair of the
    prefix earns more. *)
Definition Finv (p : list Z) (i : Z) (st : FState Z) : Prop :=
  0 <= minPriceIndex st < i /\
  (forall k, 0 <= k < i -> price p (minPriceIndex st) <= price p k) /\
  maxProfit st = price p (fastSellIndex st) - price p (fastBuyIndex st) /\
  ((fastBuyIndex st = 0 /\ fastSellIndex st = 0) \/
   (0 <= fastBuyIndex st < fastSellIndex st /\ fastSellIndex st < i /\
    0 < maxProfit st)) /\
  (forall a c, 0 <= a < c -> c < i -> price p c - price p a <= maxProfit st).

(** The profit of the best pair a state records. *)
Definition Qprofit (p : list Z) (st : QState Z) : Z :=
  price p (bestSellIndex st) - price p (bestBuyIndex st).

(** What the drop variables say once the inner loop, started at
    [currentIndex + 1], has reached [futureIndex]: either no price so far
    is below the current one, or [nextTradeStartIndex] is the first
    position of the lowest price so far, which is below the current one. *)
Definition drop_info (p : list Z) (currentIndex futureIndex : Z) (st : QState Z)
  : Prop :=
  (isOptimalFound st = true /\ minPriceDrop st = 0 /\
   forall t, currentIndex < t < futureIndex ->
             price p currentIndex <= price p t) \/
  (isOptimalFound st = false /\
   currentIndex < nextTradeStartIndex st < futureIndex /\
   minPriceDrop st = price p (nextTradeStartIndex st) - price p currentIndex /\
   price p (nextTradeStartIndex st) < price p currentIndex /\
   (forall t, currentIndex < t < futureIndex ->
              price p (nextTradeStartIndex st) <= price p t) /\
   (forall t, currentIndex < t < nextTradeStartIndex st ->
              price p (nextTradeStartIndex st) < price p t)).

(** What the best pair says at that point: it is at least as good as
    before the scan and as every sale so far of a purchase at
    [currentIndex]. *)
Definition best_info (p : list Z) (currentIndex futureIndex : Z)
  (st0 st : QState Z) : Prop :=
  Qgood p st /\ Qprofit p st0 <= Qprofit p st /\
  forall k, currentIndex < k < futureIndex ->
            price p k - price p currentIndex <= Qprofit p st.

(** A pair that a restart jumps over: it lies strictly between an index
    [c] and a later index [m <= length - 2] that holds a price below
    [p[c]] and lowest among all prices after [c]. *)
Definition skipped (p : list Z) (buy sell : Z) : Prop :=
  exists c m, 0 <= c < buy /\ sell < m /\ m <= len p - 2 /\
              price p m < price p c /\
              forall t, c < t < len p -> price p m <= price p t.

(** A pair is accounted for when the outer loop is about to run at
    [currentIndex]: it does not beat the best pair, or it was skipped, or
    its sale is still ahead and buying at [currentIndex] is no dearer. *)
Definition settled (p : list Z) (currentIndex : Z) (st : QState Z) (j k : Z)
  : Prop :=
  price p k - price p j <= Qprofit p st \/ skipped p j k \/
  (currentIndex < k /\ price p currentIndex <= price p j).

Definition outer_inv (p : list Z) (currentIndex : Z) (st : QState Z) : Prop :=
  0 <= currentIndex /\ Qgood p st /\
  forall j k, 0 <= j < currentIndex -> j < k < len p ->
              settled p currentIndex st j k.

(** [s] is the first position of the highest price among the first [i]. *)
Definition first_peak (p : list Z) (i s : Z) : Prop :=
  0 <= s /\ (s = 0 \/ s < i) /\
  (forall k, 0 <= k < i -> price p k <= price p s) /\
  (forall k, 0 <= k < s -> price p k < price p s).

Ltac znum := cbn [num_zero num_sub num_lt num_gt Z_num] in *.

(** ** findBestTrade: the best pair is [(0,0)] or a strictly profitable pair *)

Lemma Qgood_reads p st :
  0 < len p -> Qgood p st ->
  0 <= bestBuyIndex st < len p /\ 0 <= bestSellIndex st < len p /\
  price p (bestBuyIndex st) <= price p (bestSellIndex st).
Proof.
  unfold Qgood, valid_pair. intros Hn [[-> ->]|[Hv Hp]]; lia.
Qed.

Lemma inner_body_good p cur fut st :
  0 <= cur < fut -> fut < len p -> Qgood p st ->
  exists st', inner_body p cur fut st = Some st' /\ Qgood p st'.
Proof.
  intros Hc Hf Hg.
  destruct (Qgood_reads p st) as (Hb & Hs & Hle); [lia | exact Hg |].
  unfold inner_body.
  rewrite (get_in p fut), (get_in p cur), (get_in p (bestSellIndex st)),
    (get_in p (bestBuyIndex st)) by lia.
  cbn [bind]. eexists. split; [reflexivity|].
  unfold Qgood, valid_pair in *. split_ifs; cbn in *; lia.
Qed.

Lemma scan_good p cur st :
  0 <= cur < len p - 1 -> Qgood p st ->
  exists st', scan p cur st = Some st' /\ Qgood p st'.
Proof.
  intros Hc Hg. unfold scan.
  apply (for_range_inv (inner_body p cur) (fun _ s => Qgood p s)).
  - lia.
  - exact Hg.
  - intros i s0 Hi Hs0. apply inner_body_good; [lia | lia | exact Hs0].
Qed.

Lemma findBestTrade_good p :
  exists b s, findBestTrade p = Some (b, s) /\
              ((b = 0 /\ s = 0) \/ (valid_pair p b s /\ price p b < price p s)).
Proof.
  destruct (outer_loop_rule outer_body outer_body_advances
              (fun cur st => 0 <= cur /\ Qgood p st) (Qgood p) p)
    with (cur := 0) (st := qinit) as (st' & Hrun & Hg).
  - now intros cur st [_ Hg] _.
  - intros cur st [Hc Hg] Hlt.
    destruct (scan_good p cur st) as (s1 & Hs & Hg1); [lia | exact Hg |].
    exists (restart p cur s1). split; [unfold outer_body; now rewrite Hs|].
    destruct (restart p cur s1) as [st'|cur' st'] eqn:Hr.
    + apply restart_stop in Hr. now subst.
    + apply restart_index in Hr; [|exact Hc]. destruct Hr as [Hi ->]. now split.
  - split; [lia|]. left. now split.
  - exists (bestBuyIndex st'), (bestSellIndex st'). split; [|exact Hg].
    unfold findBestTrade. now rewrite Hrun.
Qed.

(** ** findBestTradeFast: the invariant of the pass *)

Ltac finv_split :=
  unfold Finv; cbn [minPriceIndex maxProfit fastBuyIndex fastSellIndex];
  cbn [num_zero num_sub num_lt num_gt Z_num];
  split; [|split; [|split; [|split]]].

Lemma fast_body_inv p i st :
  1 <= i < len p -> Finv p i st ->
  exists st', fast_body p i st = Some st' /\ Finv p (i + 1) st'.
Proof.
  intros Hi (Hm & Hmin & Hprof & Hpair & Hmax).
  assert (Hnn : 0 <= maxProfit st)
    by (destruct Hpair as [[E1 E2]|?]; [rewrite Hprof, E1, E2|]; lia).
  assert (Hnew : forall a, 0 <= a < i ->
                 price p i - price p a <= price p i - price p (minPriceIndex st))
    by (intros a Ha; specialize (Hmin a); lia).
  unfold fast_body.
  rewrite !(get_in p i), !(get_in p (minPriceIndex st)) by lia. cbn [bind]. znum.
  destruct (price p i <? price p (minPriceIndex st)) eqn:Hlow.
  - apply Z.ltb_lt in Hlow. eexists. split; [reflexivity|]. finv_split.
    + lia.
    + intros k Hk. destruct (Z.eq_dec k i) as [->|Hne]; [lia|].
      specialize (Hmin k). lia.
    + exact Hprof.
    + destruct Hpair as [?|?]; [left|right]; lia.
    + intros a c Hac Hc. destruct (Z.eq_dec c i) as [->|Hne].
      * specialize (Hnew a). lia.
      * apply Hmax; lia.
  - apply Z.ltb_ge in Hlow.
    destruct (price p i - price p (minPriceIndex st) >? maxProfit st) eqn:Hbetter;
      (eexists; split; [reflexivity|]).
    + apply Z.gtb_lt in Hbetter. finv_split.
      * lia.
      * intros k Hk. destruct (Z.eq_dec k i) as [->|Hne]; [lia|]. apply Hmin; lia.
      * reflexivity.
      * right. lia.
      * intros a c Hac Hc. destruct (Z.eq_dec c i) as [->|Hne].
        -- apply Hnew; lia.
        -- specialize (Hmax a c). lia.
    + assert (Hle : price p i - price p (minPriceIndex st) <= maxProfit st).
      { destruct (Z.gtb_spec (price p i - price p (minPriceIndex st)) (maxProfit st));
          [discriminate | lia]. }
      finv_split.
      * lia.
      * intros k Hk. destruct (Z.eq_dec k i) as [->|Hne]; [lia|]. apply Hmin; lia.
      * exact Hprof.
      * destruct Hpair as [?|?]; [left|right]; lia.
      * intros a c Hac Hc. destruct (Z.eq_dec c i) as [->|Hne].
        -- specialize (Hnew a). lia.
        -- apply Hmax; lia.
Qed.

Lemma findBestTradeFast_max p :
  exists b s, findBestTradeFast p = Some (b, s) /\
    ((b = 0 /\ s = 0) \/ (valid_pair p b s /\ price p b < price p s)) /\
    (forall i j, valid_pair p i j -> profit p (i, j) <= profit p (b, s)).
Proof.
  unfold findBestTradeFast. destruct (len p <? 2) eqn:Hn.
  - apply Z.ltb_lt in Hn. exists 0, 0. split; [reflexivity|]. split; [now left|].
    unfold valid_pair. intros i j Hv. lia.
  - apply Z.ltb_ge in Hn.
    destruct (for_range_inv (fast_body p) (Finv p) 1 (len p) finit)
      as (st & Hrun & (Hm & Hmin & Hprof & Hpair & Hmax)).
    + lia.
    + unfold finit. finv_split.
      * lia.
      * intros k Hk. replace k with 0 by lia. lia.
      * lia.
      * left. split; reflexivity.
      * intros a c Hac Hc. lia.
    + intros i s0 Hi Hs0. now apply fast_body_inv.
    + exists (fastBuyIndex st), (fastSellIndex st). rewrite Hrun. cbn [bind].
      split; [reflexivity|]. unfold valid_pair, profit; cbn [fst snd]. znum. split.
      * destruct Hpair as [?|?]; [left|right]; lia.
      * intros i j Hv. rewrite <- Hprof. apply Hmax; lia.
Qed.

(** What does hold between the two finders: the pair [findBestTrade]
    returns never earns more than the pair [findBestTradeFast] returns. *)
Lemma findBestTrade_profit_le_fast p :
  exists r1 r2, findBestTrade p = Some r1 /\ findBestTradeFast p = Some r2 /\
                profit p r1 <= profit p r2.
Proof.
  destruct (findBestTrade_good p) as (b1 & s1 & H1 & G1).
  destruct (findBestTradeFast_max p) as (b2 & s2 & H2 & G2 & Hmax).
  exists (b1, s1), (b2, s2). split; [exact H1|]. split; [exact H2|].
  destruct G1 as [[-> ->]|[Hv _]]; [|now apply Hmax].
  unfold profit. cbn [fst snd]. znum. destruct G2 as [[-> ->]|[_ Hlt]]; lia.
Qed.

(** ** What one scan of findBestTrade establishes *)

Ltac at_index t :=
  repeat match goal with
         | H : forall x : Z, _ |- _ => specialize (H t)
         end.

(** Partial correctness of the bounded loop: what the iterations that
    returned carry from one index to the next holds at the exit. *)
Lemma for_loop_post {S : Type} (body : Z -> S -> option S) (I : Z -> S -> Prop) :
  forall (k : nat) (lo : Z) (s s' : S),
    I lo s ->
    (forall i s0 s1, lo <= i < lo + Z.of_nat k -> I i s0 ->
                     body i s0 = Some s1 -> I (i + 1) s1) ->
    for_loop k lo body s = Some s' -> I (lo + Z.of_nat k) s'.
Proof.
  induction k as [|k IH]; intros lo s s' H0 Hstep Hrun; cbn [for_loop] in Hrun.
  - inversion Hrun; subst. now replace (lo + Z.of_nat 0) with lo by lia.
  - destruct (body lo s) as [s1|] eqn:Hb; cbn [bind] in Hrun; [|discriminate].
    replace (lo + Z.of_nat (Datatypes.S k)) with (lo + 1 + Z.of_nat k) by lia.
    apply (IH (lo + 1) s1 s'); [| | exact Hrun].
    + apply (Hstep lo s s1); [lia | exact H0 | exact Hb].
    + intros i s0 s2 Hi. apply Hstep. lia.
Qed.

Lemma Qgood_nonneg p st : Qgood p st -> 0 <= Qprofit p st.
Proof.
  unfold Qgood, Qprofit. intros [[-> ->]|[_ Hlt]]; lia.
Qed.

Lemma inner_body_drop_info p cur fut st st' :
  cur < fut -> inner_body p cur fut st = Some st' ->
  drop_info p cur fut st -> drop_info p cur (fut + 1) st'.
Proof.
  intros Hlt Hb Hd. unfold inner_body in Hb. run_reads Hb.
  repeat match goal with
         | E : get _ _ = Some _ |- _ =>
             apply get_Some in E; destruct E as [? ?]
         end.
  subst. inversion Hb; subst st'; clear Hb.
  set (st1 := if _ >? _ then _ else _).
  assert (Hflag : isOptimalFound st1 = isOptimalFound st)
    by (unfold st1; qsimpl; destruct (_ >? _); reflexivity).
  assert (Hmin : minPriceDrop st1 = minPriceDrop st)
    by (unfold st1; qsimpl; destruct (_ >? _); reflexivity).
  assert (Hnext : nextTradeStartIndex st1 = nextTradeStartIndex st)
    by (unfold st1; qsimpl; destruct (_ >? _); reflexivity).
  clearbody st1. unfold drop_info in *.
  destruct (price p fut - price p cur <? minPriceDrop st1) eqn:Hlow;
    rewrite Hmin in Hlow.
  - apply Z.ltb_lt in Hlow. right. qsimpl.
    destruct Hd as [(_ & Hz & Hall)|(_ & Hn & Hm & Hdrop & Hall & Hfirst)];
      (split; [reflexivity|]); (split; [lia|]); (split; [reflexivity|]);
      (split; [lia|]); split; intros t Ht;
      destruct (Z.eq_dec t fut) as [->|Hne]; try lia; at_index t; lia.
  - apply Z.ltb_ge in Hlow. rewrite Hflag, Hmin, Hnext.
    destruct Hd as [(Ho & Hz & Hall)|(Ho & Hn & Hm & Hdrop & Hall & Hfirst)].
    + left. split; [exact Ho|]. split; [exact Hz|]. intros t Ht.
      destruct (Z.eq_dec t fut) as [->|Hne]; [lia | apply Hall; lia].
    + right. split; [exact Ho|]. split; [lia|]. split; [exact Hm|].
      split; [exact Hdrop|]. split; [|exact Hfirst]. intros t Ht.
      destruct (Z.eq_dec t fut) as [->|Hne]; [lia | apply Hall; lia].
Qed.

Lemma inner_body_best_info p cur fut st0 st :
  0 <= cur < fut -> fut < len p -> best_info p cur fut st0 st ->
  exists st', inner_body p cur fut st = Some st' /\
              best_info p cur (fut + 1) st0 st'.
Proof.
  intros Hc Hf (Hg & Hmono & Hall).
  destruct (Qgood_reads p st) as (Hb & Hs & Hle); [lia | exact Hg |].
  unfold inner_body.
  rewrite (get_in p fut), (get_in p cur), (get_in p (bestSellIndex st)),
    (get_in p (bestBuyIndex st)) by lia.
  cbn [bind]. eexists. split; [reflexivity|].
  unfold best_info, Qgood, Qprofit, valid_pair in *.
  destruct st as [b s cp d o n]. qsimpl. znum.
  destruct (price p fut - price p cur >? price p s - price p b) eqn:Hbetter;
    [apply Z.gtb_lt in Hbetter
    | assert (price p fut - price p cur <= price p s - price p b)
        by (destruct (Z.gtb_spec (price p fut - price p cur)
                        (price p s - price p b)); [discriminate | lia])];
    qsimpl; destruct (_ <? _); qsimpl;
    (split; [lia|]); (split; [lia|]); intros k Hk;
    destruct (Z.eq_dec k fut) as [->|Hne]; try lia; at_index k; lia.
Qed.

(** Lines 28-61, from a state whose best pair is [(0,0)] or profitable:
    the scan returns, the best pair has not got worse and is at least as
    good as every sale after a purchase at [currentIndex], and the drop
    variables point at the first position of the lowest later price when
    that price is below the current one. *)
Lemma scan_spec p cur st :
  0 <= cur < len p - 1 -> Qgood p st ->
  exists st', scan p cur st = Some st' /\
              best_info p cur (len p) st st' /\ drop_info p cur (len p) st'.
Proof.
  intros Hc Hg.
  destruct (for_range_inv (inner_body p cur)
              (fun fut s => best_info p cur fut st s) (cur + 1) (len p)
              (reset_scan st)) as (st' & Hrun & Hbest).
  - lia.
  - unfold best_info, Qprofit, Qgood in *. qsimpl.
    split; [exact Hg|]. split; [lia|]. intros k Hk. lia.
  - intros i s0 Hi Hs0. apply inner_body_best_info; [lia | lia | exact Hs0].
  - exists st'. split; [exact Hrun|]. split; [exact Hbest|].
    unfold scan, for_range in *.
    assert (Hd : drop_info p cur (cur + 1 + Z.of_nat (Z.to_nat (len p - (cur + 1)))) st').
    { apply (for_loop_post (inner_body p cur) (drop_info p cur)
               (Z.to_nat (len p - (cur + 1))) (cur + 1) (reset_scan st) st');
        [| | exact Hrun].
      - left. qsimpl. repeat split. intros t Ht. lia.
      - intros i s0 s1 Hi Hd0 Hb. apply (inner_body_drop_info p cur i s0 s1);
          [lia | exact Hb | exact Hd0]. }
    now replace (cur + 1 + Z.of_nat (Z.to_nat (len p - (cur + 1)))) with (len p) in Hd by lia.
Qed.

(** ** Which pairs can beat the result of findBestTrade *)

Lemma restart_cases p cur st :
  drop_info p cur (len p) st ->
  (restart p cur st = Stop st /\
   forall t, cur < t < len p -> price p cur <= price p t) \/
  (restart p cur st = Next (nextTradeStartIndex st - 1) st /\
   cur < nextTradeStartIndex st /\ nextTradeStartIndex st <= len p - 2 /\
   price p (nextTradeStartIndex st) < price p cur /\
   forall t, cur < t < len p -> price p (nextTradeStartIndex st) <= price p t) \/
  restart p cur st = Next cur st.
Proof.
  unfold restart.
  intros [(Ho & _ & Hall)|(Ho & Hn & _ & Hdrop & Hall & _)]; rewrite Ho.
  - left. now split.
  - destruct (_ && _) eqn:Hj; [|now right; right].
    apply andb_prop in Hj. right; left. repeat split; try assumption; lia.
Qed.

Lemma outer_body_settles p cur st :
  outer_inv p cur st -> cur < len p - 1 ->
  exists c, outer_body p cur st = Some c /\
    match c with
    | Stop st' =>
        Qgood p st' /\
        forall j k, valid_pair p j k ->
                    price p k - price p j <= Qprofit p st' \/ skipped p j k
    | Next cur' st' => outer_inv p (cur' + 1) st'
    end.
Proof.
  intros (Hc & Hg & Hpairs) Hlt.
  destruct (scan_spec p cur st) as (s1 & Hscan & (Hg1 & Hmono & Hcur) & Hdrop);
    [lia | exact Hg |].
  pose proof (Qgood_nonneg p s1 Hg1) as Hnn.
  assert (Hold : forall j k, 0 <= j <= cur -> j < k < len p ->
                 price p k - price p j <= Qprofit p s1 \/ skipped p j k).
  { intros j k Hj Hk. destruct (Z.eq_dec j cur) as [->|Hne].
    - left. apply Hcur. lia.
    - destruct (Hpairs j k) as [Hle|[Hskip|[Hk' Hlow]]]; [lia | lia | | |].
      + left. lia.
      + now right.
      + left. specialize (Hcur k). lia. }
  exists (restart p cur s1). split; [unfold outer_body; now rewrite Hscan|].
  destruct (restart_cases p cur s1 Hdrop)
    as [[-> Hall]|[(-> & Hn & Hn2 & Hlow & Hall)| ->]].
  - split; [exact Hg1|]. intros j k ((Hj & Hjk) & Hk).
    destruct (Z_le_gt_dec j cur) as [Hle|Hgt]; [apply Hold; lia|].
    left. specialize (Hall j). specialize (Hcur k). lia.
  - replace (nextTradeStartIndex s1 - 1 + 1) with (nextTradeStartIndex s1) by lia.
    split; [lia|]. split; [exact Hg1|]. intros j k Hj Hk.
    destruct (Z_le_gt_dec j cur) as [Hle|Hgt].
    + destruct (Hold j k) as [H|H]; [lia | lia | now left | now right; left].
    + destruct (Z_lt_le_dec k (nextTradeStartIndex s1)) as [Hinside|Hafter].
      * right; left. exists cur, (nextTradeStartIndex s1).
        repeat split; try assumption; lia.
      * destruct (Z.eq_dec k (nextTradeStartIndex s1)) as [->|Hne].
        -- left. specialize (Hall j). lia.
        -- right; right. split; [lia|]. apply Hall. lia.
  - split; [lia|]. split; [exact Hg1|]. intros j k Hj Hk.
    destruct (Hold j k) as [H|H]; [lia | lia | now left | now right; left].
Qed.

Lemma findBestTrade_settles p :
  exists b s, findBestTrade p = Some (b, s) /\
    forall j k, valid_pair p j k ->
                profit p (j, k) <= profit p (b, s) \/ skipped p j k.
Proof.
  destruct (outer_loop_rule outer_body outer_body_advances (outer_inv p)
              (fun st' => Qgood p st' /\
                 forall j k, valid_pair p j k ->
                   price p k - price p j <= Qprofit p st' \/ skipped p j k) p)
    with (cur := 0) (st := qinit) as (st' & Hrun & _ & Hres).
  - intros cur st (Hc & Hg & Hpairs) Hexit. split; [exact Hg|].
    intros j k ((Hj & Hjk) & Hk).
    destruct (Hpairs j k) as [H|[H|[Hk' _]]]; [lia | lia | now left | now right | lia].
  - intros cur st Hinv Hlt. exact (outer_body_settles p cur st Hinv Hlt).
  - split; [lia|]. split; [left; now split|]. intros j k Hj. lia.
  - exists (bestBuyIndex st'), (bestSellIndex st'). split.
    + unfold findBestTrade. now rewrite Hrun.
    + exact Hres.
Qed.

(** On fewer than five prices no pair can be jumped over. *)
Lemma findBestTrade_maximal_below_five_exact (p : list Z) :
  len p <= 4 ->
  exists r1 r2,
    findBestTrade p = Some r1 /\ findBestTradeFast p = Some r2 /\
    profit p r1 = profit p r2 /\
    forall j k, valid_pair p j k -> profit p (j, k) <= profit p r1.
Proof.
  intros Hn.
  destruct (findBestTrade_settles p) as (b & s & Hrun & Hpairs).
  destruct (findBestTrade_profit_le_fast p) as (r1 & r2 & H1 & H2 & Hle).
  rewrite Hrun in H1. inversion H1; subst r1; clear H1.
  assert (Hmax : forall j k, valid_pair p j k -> profit p (j, k) <= profit p (b, s)).
  { intros j k Hv. destruct (Hpairs j k Hv) as [H|(c & m & Hc & Hm & Hm2 & _)];
      [exact H|]. unfold valid_pair in Hv. lia. }
  exists (b, s), r2. split; [exact Hrun|]. split; [exact H2|]. split; [|exact Hmax].
  destruct (findBestTradeFast_max p) as (b2 & s2 & H2' & Hshape & _).
  rewrite H2 in H2'. inversion H2'; subst r2; clear H2'.
  destruct Hshape as [[-> ->]|[Hv _]].
  - destruct (findBestTrade_good p) as (b' & s' & Hrun' & Hshape').
    rewrite Hrun in Hrun'. inversion Hrun'; subst b' s'.
    unfold profit in *. znum. cbn [fst snd] in *.
    destruct Hshape' as [[-> ->]|[_ Hlt]]; lia.
  - specialize (Hmax b2 s2 Hv). lia.
Qed.


(** ** When the first price is the lowest *)

Lemma first_peak_unique p i s s' :
  1 <= i -> first_peak p i s -> first_peak p i s' -> s = s'.
Proof.
  intros Hi (H0 & Hr & Hle & Hlt) (H0' & Hr' & Hle' & Hlt').
  destruct (Z.lt_trichotomy s s') as [H|[H|H]]; [|exact H|].
  - specialize (Hlt' s). specialize (Hle s'). lia.
  - specialize (Hlt s'). specialize (Hle' s). lia.
Qed.

Definition peak_state (p : list Z) (fut : Z) (st : QState Z) : Prop :=
  bestBuyIndex st = 0 /\ isOptimalFound st = true /\ minPriceDrop st = 0 /\
  first_peak p fut (bestSellIndex st).

Lemma inner_body_peak p fut st :
  (forall t, 0 <= t < len p -> price p 0 <= price p t) ->
  0 < fut < len p -> peak_state p fut st ->
  exists st', inner_body p 0 fut st = Some st' /\ peak_state p (fut + 1) st'.
Proof.
  intros Hlow Hf (Hb & Ho & Hd & Hs0 & Hr & Hle & Hlt).
  unfold inner_body.
  rewrite (get_in p fut), (get_in p 0), (get_in p (bestSellIndex st)),
    (get_in p (bestBuyIndex st)) by lia.
  cbn [bind]. eexists. split; [reflexivity|].
  destruct st as [b s cp d o n]. unfold peak_state, first_peak in *. qsimpl. znum.
  subst.
  pose proof (Hlow fut ltac:(lia)) as Hfut.
  destruct (price p fut - price p 0 >? price p s - price p 0) eqn:Hbetter;
    [apply Z.gtb_lt in Hbetter
    | assert (price p fut <= price p s)
        by (destruct (Z.gtb_spec (price p fut - price p 0)
                        (price p s - price p 0)); [discriminate | lia])];
    qsimpl;
    (destruct (_ <? 0) eqn:Hdrop; [apply Z.ltb_lt in Hdrop; lia|]); qsimpl;
    repeat (split; [reflexivity || lia|]); split; intros k Hk;
    destruct (Z.eq_dec k fut) as [->|Hne]; try lia; at_index k; lia.
Qed.

Definition fast_peak_state (p : list Z) (i : Z) (st : FState Z) : Prop :=
  minPriceIndex st = 0 /\ fastBuyIndex st = 0 /\
  maxProfit st = price p (fastSellIndex st) - price p 0 /\
  first_peak p i (fastSellIndex st).

Lemma fast_body_peak p i st :
  (forall t, 0 <= t < len p -> price p 0 <= price p t) ->
  0 < i < len p -> fast_peak_state p i st ->
  exists st', fast_body p i st = Some st' /\ fast_peak_state p (i + 1) st'.
Proof.
  intros Hlow Hi (Hm & Hb & Hprof & Hs0 & Hr & Hle & Hlt).
  unfold fast_body. rewrite Hm.
  rewrite !(get_in p i), !(get_in p 0) by lia. cbn [bind]. znum.
  pose proof (Hlow i ltac:(lia)) as Hfut.
  destruct (price p i <? price p 0) eqn:Hdrop; [apply Z.ltb_lt in Hdrop; lia|].
  destruct st as [m mp b s]. unfold fast_peak_state, first_peak in *.
  cbn [minPriceIndex maxProfit fastBuyIndex fastSellIndex] in *. subst.
  destruct (price p i - price p 0 >? price p s - price p 0) eqn:Hbetter;
    [apply Z.gtb_lt in Hbetter
    | assert (price p i <= price p s)
        by (destruct (Z.gtb_spec (price p i - price p 0)
                        (price p s - price p 0)); [discriminate | lia])];
    (eexists; split; [reflexivity|]);
    cbn [minPriceIndex maxProfit fastBuyIndex fastSellIndex];
    repeat (split; [reflexivity || lia|]); split; intros k Hk;
    destruct (Z.eq_dec k i) as [->|Hne]; try lia; at_index k; lia.
Qed.

Lemma first_lowest_first_peak p :
  (forall t, 0 <= t < len p -> price p 0 <= price p t) ->
  exists s, findBestTrade p = Some (0, s) /\ findBestTradeFast p = Some (0, s) /\
            first_peak p (len p) s.
Proof.
  intros Hlow. destruct (Z_lt_le_dec (len p) 2) as [Hshort|Hlong].
  - exists 0. unfold findBestTrade, findBestTradeFast. rewrite outer_loop_eq.
    destruct (0 <? len p - 1) eqn:Hc; [apply Z.ltb_lt in Hc; lia|].
    destruct (len p <? 2) eqn:Hc'; [|apply Z.ltb_ge in Hc'; lia].
    repeat split; try lia. intros k Hk. replace k with 0 by lia. lia.
  - assert (Hstart : first_peak p 1 0).
    { repeat split; try lia. intros k Hk. replace k with 0 by lia. lia. }
    destruct (for_range_inv (inner_body p 0) (peak_state p) (0 + 1) (len p)
                (reset_scan qinit)) as (s1 & Hscan & (Hb & Ho & _ & Hpeak)).
    { lia. }
    { unfold peak_state. qsimpl. repeat split; try apply Hstart. }
    { intros i s0 Hi. apply inner_body_peak; [exact Hlow | lia]. }
    destruct (for_range_inv (fast_body p) (fast_peak_state p) 1 (len p) finit)
      as (f1 & Hpass & (_ & Hfb & _ & Hfpeak)).
    { lia. }
    { unfold fast_peak_state, finit.
      cbn [minPriceIndex maxProfit fastBuyIndex fastSellIndex]. znum.
      repeat split; try apply Hstart; lia. }
    { intros i s0 Hi. apply fast_body_peak; [exact Hlow | lia]. }
    exists (bestSellIndex s1). split; [|split; [|exact Hpeak]].
    + unfold findBestTrade. rewrite outer_loop_eq.
      destruct (0 <? len p - 1) eqn:Hc; [|apply Z.ltb_ge in Hc; lia].
      unfold outer_body, scan. rewrite Hscan. cbn [bind]. unfold restart.
      rewrite Ho. cbn [bind]. unfold pair_of. now rewrite Hb.
    + unfold findBestTradeFast.
      destruct (len p <? 2) eqn:Hc'; [apply Z.ltb_lt in Hc'; lia|].
      rewrite Hpass. cbn [bind]. rewrite Hfb.
      now rewrite (first_peak_unique p (len p) _ _ ltac:(lia) Hfpeak Hpeak).
Qed.

Ltac below n t H :=
  let rec go k :=
    lazymatch k with
    | O => exfalso; lia
    | S ?k' =>
        let E := fresh "E" in
        destruct (Z.eq_dec t (Z.of_nat k')) as [E|E];
        [cbn in E; subst t | go k']
    end in
  go n.

Ltac by_evaluation :=
  first [lia | vm_compute; reflexivity | vm_compute; discriminate].

Lemma increasing_buys_first_sells_last_exact (p : list Z) :
  2 <= len p ->
  (forall i j, 0 <= i < j -> j < len p -> price p i < price p j) ->
  findBestTrade p = Some (0, len p - 1) /\
  findBestTradeFast p = Some (0, len p - 1).
Proof.
  intros Hn Hinc.
  destruct (first_lowest_first_peak p) as (s & H1 & H2 & (Hs0 & Hr & Hle & _)).
  - intros t Ht. destruct (Z.eq_dec t 0) as [->|Hne]; [lia|].
    specialize (Hinc 0 t). lia.
  - assert (s = len p - 1); [|now subst].
    destruct (Z.eq_dec s (len p - 1)) as [E|Hne]; [exact E|].
    specialize (Hle (len p - 1)). specialize (Hinc s (len p - 1)). lia.
Qed.

(** ** Which maximal pair findBestTradeFast returns *)

(** [minPriceIndex] is the first position of its price, and so is the
    recorded purchase; every pair that ends before the recorded sale earns
    strictly less. *)
Definition Ftie (p : list Z) (st : FState Z) : Prop :=
  (forall a, 0 <= a < minPriceIndex st ->
             price p (minPriceIndex st) < price p a) /\
  (0 < maxProfit st ->
   (forall a c, 0 <= a < c -> c < fastSellIndex st ->
                price p c - price p a < maxProfit st) /\
   (forall a, 0 <= a < fastBuyIndex st ->
              price p (fastBuyIndex st) < price p a)).

Lemma fast_body_tie p i st :
  1 <= i < len p -> Finv p i st /\ Ftie p st ->
  exists st', fast_body p i st = Some st' /\ Finv p (i + 1) st' /\ Ftie p st'.
Proof.
  intros Hi (Hinv & Hfirst & Hbest).
  destruct (fast_body_inv p i st Hi Hinv) as (st' & Hb & Hinv').
  exists st'. split; [exact Hb|]. split; [exact Hinv'|].
  destruct Hinv as (Hm & Hmin & Hprof & Hpair & Hmax).
  assert (Hnn : 0 <= maxProfit st)
    by (destruct Hpair as [[E1 E2]|?]; [rewrite Hprof, E1, E2|]; lia).
  unfold fast_body in Hb.
  rewrite !(get_in p i), !(get_in p (minPriceIndex st)) in Hb by lia.
  cbn [bind] in Hb. znum.
  destruct (price p i <? price p (minPriceIndex st)) eqn:Hlow.
  - apply Z.ltb_lt in Hlow. inversion Hb; subst st'; clear Hb.
    unfold Ftie. cbn [minPriceIndex maxProfit fastBuyIndex fastSellIndex].
    split; [|exact Hbest]. intros a Ha. specialize (Hmin a). lia.
  - destruct (price p i - price p (minPriceIndex st) >? maxProfit st) eqn:Hbetter;
      inversion Hb; subst st'; clear Hb; [|now split].
    apply Z.gtb_lt in Hbetter.
    unfold Ftie. cbn [minPriceIndex maxProfit fastBuyIndex fastSellIndex].
    split; [exact Hfirst|]. intros _. split; [|exact Hfirst].
    intros a c Hac Hc. specialize (Hmax a c). lia.
Qed.

Lemma findBestTradeFast_least p b s i j :
  findBestTradeFast p = Some (b, s) -> maximal_pair p i j -> b <= i /\ s <= j.
Proof.
  unfold findBestTradeFast, maximal_pair, valid_pair, profit. znum. cbn [fst snd].
  intros Hrun (((Hi & Hij) & Hj) & Hbest).
  destruct (len p <? 2) eqn:Hn; [apply Z.ltb_lt in Hn; lia|].
  apply Z.ltb_ge in Hn.
  destruct (for_range_inv (fast_body p) (fun k st => Finv p k st /\ Ftie p st)
              1 (len p) finit)
    as (st & Hpass & (Hm & Hmin & Hprof & Hpair & Hmax) & (Hfirst & Htie)).
  - lia.
  - split.
    + unfold finit. finv_split; try lia.
      intros k Hk. replace k with 0 by lia. lia.
    + unfold Ftie, finit. cbn [minPriceIndex maxProfit fastBuyIndex fastSellIndex].
      znum. split; intros; lia.
  - intros k s0 Hk. now apply fast_body_tie.
  - rewrite Hpass in Hrun. cbn [bind] in Hrun. inversion Hrun; subst b s; clear Hrun.
    destruct Hpair as [[-> ->]|(Hb & Hs & Hpos)]; [lia|].
    destruct (Htie Hpos) as (Hbefore & Hbuy).
    assert (Hsj : fastSellIndex st <= j).
    { destruct (Z_le_gt_dec (fastSellIndex st) j) as [H|H]; [exact H|].
      specialize (Hbefore i j). specialize (Hbest (fastBuyIndex st) (fastSellIndex st)).
      lia. }
    split; [|exact Hsj].
    destruct (Z_le_gt_dec (fastBuyIndex st) i) as [H|H]; [exact H|].
    specialize (Hbuy i). specialize (Hbest (fastBuyIndex st) j). lia.
Qed.

(** ** How often the outer body of findBestTrade runs *)

(** The indices [lo], [lo+1], ..., [lo+k-1]. *)
Fixpoint upto (k : nat) (lo : Z) : list Z :=
  match k with
  | O => []
  | S k' => lo :: upto k' (lo + 1)
  end.

Lemma outer_body_no_jump_when_decreasing p cur st :
  (forall i j, 0 <= i < j -> j < len p -> price p j < price p i) ->
  0 <= cur < len p - 1 -> Qgood p st ->
  exists st', outer_body p cur st = Some (Next cur st') /\ Qgood p st'.
Proof.
  intros Hdec Hc Hg.
  destruct (scan_spec p cur st Hc Hg) as (s1 & Hscan & (Hg1 & _) & Hdrop).
  exists s1. split; [|exact Hg1]. unfold outer_body. rewrite Hscan. cbn [bind].
  unfold restart.
  destruct Hdrop as [(_ & _ & Hall)|(Ho & Hn & _ & _ & Hall & _)].
  - specialize (Hall (len p - 1)). specialize (Hdec cur (len p - 1)). lia.
  - rewrite Ho.
    assert (Hlast : nextTradeStartIndex s1 = len p - 1).
    { destruct (Z.eq_dec (nextTradeStartIndex s1) (len p - 1)) as [E|Hne]; [exact E|].
      specialize (Hall (len p - 1)).
      specialize (Hdec (nextTradeStartIndex s1) (len p - 1)). lia. }
    rewrite Hlast.
    destruct (len p - 1 <=? len p - 2) eqn:Hle; [apply Z.leb_le in Hle; lia|].
    now rewrite andb_false_r.
Qed.

Lemma outer_run_decreasing p :
  (forall i j, 0 <= i < j -> j < len p -> price p j < price p i) ->
  forall (fuel : nat) cur st,
    0 <= cur -> Qgood p st -> (Z.to_nat (len p - 1 - cur) <= fuel)%nat ->
    fst (outer_run outer_body fuel p cur st) = upto (Z.to_nat (len p - 1 - cur)) cur.
Proof.
  intros Hdec. induction fuel as [|fuel IH]; intros cur st Hc Hg Hfuel;
    cbn [outer_run]; destruct (cur <? len p - 1) eqn:Hlt;
    try (apply Z.ltb_ge in Hlt;
         replace (Z.to_nat (len p - 1 - cur)) with O by lia; reflexivity);
    apply Z.ltb_lt in Hlt; [lia|].
  destruct (outer_body_no_jump_when_decreasing p cur st Hdec) as (st' & Hb & Hg');
    [lia | exact Hg |].
  rewrite Hb. specialize (IH (cur + 1) st').
  destruct (outer_run outer_body fuel p (cur + 1) st') as [visited r].
  cbn [fst] in *. rewrite IH by (assumption || lia).
  replace (Z.to_nat (len p - 1 - cur))
    with (S (Z.to_nat (len p - 1 - (cur + 1)))) by lia.
  reflexivity.
Qed.

Lemma findBestTrade_scans_every_index_when_decreasing_exact (p : list Z) :
  (forall i j, 0 <= i < j -> j < len p -> price p j < price p i) ->
  fst (findBestTrade_run (length p) p) = upto (length p - 1) 0.
Proof.
  intros Hdec. unfold findBestTrade_run.
  rewrite (outer_run_decreasing p Hdec (length p) 0 qinit);
    [| lia | left; now split | unfold len; lia].
  f_equal. unfold len. lia.
Qed.


(** ** What findBestTradeFast guarantees in exact arithmetic *)

Lemma findBestTradeFast_correct_exact (p : list Z) :
  exists b s, findBestTradeFast p = Some (b, s) /\
    ((profitable p /\ maximal_pair p b s) \/
     (~ profitable p /\ b = 0 /\ s = 0)).
Proof.
  destruct (findBestTradeFast_max p) as (b & s & Hrun & Hshape & Hmax).
  exists b, s. split; [exact Hrun|].
  destruct Hshape as [[-> ->]|[Hv Hlt]].
  - right. split; [|now split]. intros (i & j & Hv & Hpos).
    specialize (Hmax i j Hv). unfold profit in *. znum. cbn [fst snd] in *. lia.
  - left. split.
    + exists b, s. split; [exact Hv|]. unfold profit. znum. cbn [fst snd]. lia.
    + split; assumption.
Qed.


(** * binary64 against exact arithmetic *)

(** ** The values a finder works with *)

Section Working.
Context {N : Type} {num : Num N}.

(** The literal [0] and the prices. *)
Definition vals (p : list N) : list N := num_zero :: p.

(** Every difference of two of them. *)
Definition diffs (p : list N) : list N :=
  flat_map (fun a => map (num_sub a) (vals p)) (vals p).

Definition working (p : list N) : list N := vals p ++ diffs p.

Lemma get_In (p : list N) i a : get p i = Some a -> In a (vals p).
Proof.
  unfold get, vals. destruct (i <? 0); [discriminate|].
  intros H. right. exact (nth_error_In _ _ H).
Qed.


Lemma working_val (p : list N) a : In a (vals p) -> In a (working p).
Proof. intros H. apply in_or_app. now left. Qed.

Lemma working_diff (p : list N) a b :
  In a (vals p) -> In b (vals p) -> In (num_sub a b) (working p).
Proof.
  intros Ha Hb. apply in_or_app. right. unfold diffs.
  apply in_flat_map. exists a. split; [exact Ha|]. now apply in_map.
Qed.
End Working.

(** ** Two readings of the same numbers *)

Definition option_rel {S T : Type} (R : S -> T -> Prop) (a : option S)
  (b : option T) : Prop :=
  match a, b with
  | Some x, Some y => R x y
  | None, None => True
  | _, _ => False
  end.

Lemma for_loop_sim {S T : Type} (R : S -> T -> Prop)
  (b1 : Z -> S -> option S) (b2 : Z -> T -> option T) :
  (forall i s t, R s t -> option_rel R (b1 i s) (b2 i t)) ->
  forall (k : nat) lo s t,
    R s t -> option_rel R (for_loop k lo b1 s) (for_loop k lo b2 t).
Proof.
  intros Hstep. induction k as [|k IH]; intros lo s t HR; cbn [for_loop].
  - exact HR.
  - specialize (Hstep lo s t HR).
    destruct (b1 lo s) as [s1|], (b2 lo t) as [t1|]; cbn [bind option_rel] in *;
      try contradiction; [now apply IH | exact I].
Qed.

(** [val] reads the numbers of [p] in another arithmetic.  The reading is
    faithful on [p] when it maps [0] to [0], every difference of two values
    to the difference of their readings, and orders the working values as
    their readings are ordered. *)
Section Sim.
Context {A B : Type} {numA : Num A} {numB : Num B}.
Variable val : A -> B.
Variable p : list A.

Definition faithful : Prop :=
  val num_zero = num_zero /\
  (forall a b, In a (vals p) -> In b (vals p) ->
               val (num_sub a b) = num_sub (val a) (val b)) /\
  (forall x y, In x (working p) -> In y (working p) ->
               num_lt x y = num_lt (val x) (val y) /\
               num_gt x y = num_gt (val x) (val y)).

Hypothesis Hfaithful : faithful.

Lemma len_map_val : len (map val p) = len p.
Proof. unfold len. now rewrite length_map. Qed.

Lemma get_map_val i : get (map val p) i = option_map val (get p i).
Proof. unfold get. destruct (i <? 0); [reflexivity|]. apply nth_error_map. Qed.



(** The states of the two runs: same indices and flag, and the recorded
    drop of one is the reading of the other's, which is a working value. *)
Definition Ridx (a : QState A) (b : QState B) : Prop :=
  bestBuyIndex b = bestBuyIndex a /\ bestSellIndex b = bestSellIndex a /\
  isOptimalFound b = isOptimalFound a /\
  nextTradeStartIndex b = nextTradeStartIndex a.

Definition Rq (a : QState A) (b : QState B) : Prop :=
  Ridx a b /\ minPriceDrop b = val (minPriceDrop a) /\
  In (minPriceDrop a) (working p).

Lemma inner_body_sim cur fut sa sb :
  Rq sa sb ->
  option_rel Rq (inner_body p cur fut sa) (inner_body (map val p) cur fut sb).
Proof.
  intros ((Eb & Es & Eo & En) & Ed & Hin).
  destruct Hfaithful as (_ & Hsub & Hord).
  unfold inner_body. rewrite !get_map_val, Eb, Es.
  destruct (get p fut) as [pf|] eqn:Ef; cbn [option_map bind option_rel]; [|exact I].
  destruct (get p cur) as [pc|] eqn:Ec; cbn [option_map bind option_rel]; [|exact I].
  destruct (get p (bestSellIndex sa)) as [ps|] eqn:Eps;
    cbn [option_map bind option_rel]; [|exact I].
  destruct (get p (bestBuyIndex sa)) as [pb|] eqn:Epb;
    cbn [option_map bind option_rel]; [|exact I].
  apply get_In in Ef, Ec, Eps, Epb.
  rewrite <- !Hsub by assumption.
  pose proof (working_diff p pf pc Ef Ec) as Hpot.
  pose proof (working_diff p ps pb Eps Epb) as Hbase.
  destruct (Hord _ _ Hpot Hbase) as [_ Hgt].
  destruct (Hord _ _ Hpot Hin) as [Hlt _].
  destruct sa as [ab as_ acp amd ao an], sb as [bb bs bcp bmd bo bn].
  unfold Rq, Ridx in *. qsimpl. subst. rewrite <- Hgt.
  destruct (num_gt (num_sub pf pc) (num_sub ps pb)); qsimpl; rewrite <- Hlt;
    destruct (num_lt (num_sub pf pc) amd); qsimpl; repeat split; assumption.
Qed.

Lemma scan_sim cur sa sb :
  Ridx sa sb -> option_rel Rq (scan p cur sa) (scan (map val p) cur sb).
Proof.
  intros (Eb & Es & Eo & En). unfold scan, for_range. rewrite len_map_val.
  apply for_loop_sim; [intros i s t; apply inner_body_sim|].
  destruct Hfaithful as (H0 & _).
  unfold Rq, Ridx. qsimpl. repeat split; try assumption.
  - now symmetry.
  - apply working_val. now left.
Qed.

Definition ctl_rel (a : ctl A) (b : ctl B) : Prop :=
  match a, b with
  | Stop sa, Stop sb => Ridx sa sb
  | Next i sa, Next j sb => j = i /\ Ridx sa sb
  | _, _ => False
  end.

Lemma outer_body_sim cur sa sb :
  Ridx sa sb ->
  option_rel ctl_rel (outer_body p cur sa) (outer_body (map val p) cur sb).
Proof.
  intros HR. pose proof (scan_sim cur sa sb HR) as Hs. unfold outer_body.
  destruct (scan p cur sa) as [sa'|], (scan (map val p) cur sb) as [sb'|];
    cbn [bind option_rel] in *; try contradiction; [|exact I].
  destruct Hs as ((Eb & Es & Eo & En) & _).
  unfold restart. rewrite len_map_val, Eo, En. unfold Ridx.
  destruct (isOptimalFound sa') eqn:Ho; cbn [ctl_rel];
    [repeat split; congruence|].
  destruct (_ && _); cbn [ctl_rel]; repeat split; congruence.
Qed.

Lemma outer_loop_sim :
  forall (n : nat) cur sa sb,
    (Z.to_nat (len p - cur) <= n)%nat -> Ridx sa sb ->
    option_rel Ridx (outer_loop outer_body outer_body_advances p cur sa)
      (outer_loop outer_body outer_body_advances (map val p) cur sb).
Proof.
  induction n as [|n IH]; intros cur sa sb Hn HR;
    rewrite (outer_loop_eq _ _ p), (outer_loop_eq _ _ (map val p)), len_map_val;
    destruct (cur <? len p - 1) eqn:Hc; try exact HR;
    apply Z.ltb_lt in Hc; [lia|].
  pose proof (outer_body_sim cur sa sb HR) as Hb.
  destruct (outer_body p cur sa) as [[sa'|i sa']|] eqn:Ha,
    (outer_body (map val p) cur sb) as [[sb'|j sb']|];
    cbn [option_rel ctl_rel] in Hb; try contradiction; try exact Hb; try exact I.
  destruct Hb as [-> HR']. apply IH; [|exact HR'].
  apply outer_body_advances in Ha. lia.
Qed.

Lemma outer_run_sim :
  forall (fuel : nat) cur sa sb,
    Ridx sa sb ->
    fst (outer_run outer_body fuel p cur sa) =
    fst (outer_run outer_body fuel (map val p) cur sb).
Proof.
  induction fuel as [|fuel IH]; intros cur sa sb HR; cbn [outer_run];
    rewrite len_map_val; destruct (cur <? len p - 1); try reflexivity.
  pose proof (outer_body_sim cur sa sb HR) as Hb.
  destruct (outer_body p cur sa) as [[sa'|i sa']|],
    (outer_body (map val p) cur sb) as [[sb'|j sb']|];
    cbn [option_rel ctl_rel] in Hb; try contradiction; try reflexivity.
  destruct Hb as [-> HR']. specialize (IH (i + 1) sa' sb' HR').
  destruct (outer_run outer_body fuel p (i + 1) sa'),
    (outer_run outer_body fuel (map val p) (i + 1) sb').
  cbn [fst] in *. now rewrite IH.
Qed.

Lemma qinit_sim : Ridx qinit qinit.
Proof. now repeat split. Qed.

Lemma findBestTrade_sim : findBestTrade p = findBestTrade (map val p).
Proof.
  pose proof (outer_loop_sim (Z.to_nat (len p - 0)) 0 qinit qinit (le_n _) qinit_sim)
    as H.
  unfold findBestTrade.
  destruct (outer_loop _ _ p 0 qinit) as [sa|],
    (outer_loop _ _ (map val p) 0 qinit) as [sb|];
    cbn [option_rel bind] in *; try contradiction; [|reflexivity].
  destruct H as (Eb & Es & _). unfold pair_of. now rewrite Eb, Es.
Qed.

Definition Rf (a : FState A) (b : FState B) : Prop :=
  minPriceIndex b = minPriceIndex a /\ fastBuyIndex b = fastBuyIndex a /\
  fastSellIndex b = fastSellIndex a /\ maxProfit b = val (maxProfit a) /\
  In (maxProfit a) (working p).

Lemma fast_body_sim i fa fb :
  Rf fa fb -> option_rel Rf (fast_body p i fa) (fast_body (map val p) i fb).
Proof.
  intros (Em & Eb & Es & Ep & Hin).
  destruct Hfaithful as (_ & Hsub & Hord).
  unfold fast_body. rewrite !get_map_val, Em.
  destruct (get p i) as [pi|] eqn:Ei; cbn [option_map bind option_rel]; [|exact I].
  destruct (get p (minPriceIndex fa)) as [pm|] eqn:Epm;
    cbn [option_map bind option_rel]; [|exact I].
  apply get_In in Ei, Epm.
  destruct (Hord pi pm (working_val p _ Ei) (working_val p _ Epm)) as [Hlt _].
  rewrite <- Hlt, <- Hsub by assumption.
  destruct (Hord _ _ (working_diff p pi pm Ei Epm) Hin) as [_ Hgt].
  rewrite Ep, <- Hgt.
  destruct (num_lt pi pm); cbn [option_rel].
  - unfold Rf. cbn [minPriceIndex maxProfit fastBuyIndex fastSellIndex].
    now repeat split.
  - destruct (num_gt (num_sub pi pm) (maxProfit fa)); cbn [option_rel]; unfold Rf;
      cbn [minPriceIndex maxProfit fastBuyIndex fastSellIndex]; repeat split;
      try assumption; try reflexivity.
    now apply working_diff.
Qed.

Lemma findBestTradeFast_sim : findBestTradeFast p = findBestTradeFast (map val p).
Proof.
  unfold findBestTradeFast, for_range. rewrite len_map_val.
  destruct (len p <? 2); [reflexivity|].
  assert (H0 : Rf finit finit).
  { destruct Hfaithful as (H0 & _). unfold Rf, finit.
    cbn [minPriceIndex maxProfit fastBuyIndex fastSellIndex].
    repeat split; [now symmetry | apply working_val; now left]. }
  pose proof (for_loop_sim Rf (fast_body p) (fast_body (map val p)) fast_body_sim
                (Z.to_nat (len p - 1)) 1 finit finit H0) as H.
  destruct (for_loop _ 1 (fast_body p) finit) as [fa|],
    (for_loop _ 1 (fast_body (map val p)) finit) as [fb|];
    cbn [option_rel bind] in *; try contradiction; [|reflexivity].
  destruct H as (_ & Eb & Es & _). now rewrite Eb, Es.
Qed.
End Sim.

(** ** The exact value of a double *)

(** Every finite double is an integer multiple of [2^-1074]; [float_val]
    is that integer (and [0] for an infinity or NaN, which the check below
    rules out). *)
Definition float_val (x : float) : Z :=
  match Prim2SF x with
  | S754_zero _ => 0
  | S754_finite s m e => (if s then -1 else 1) * Z.pos m * 2 ^ (e + 1074)
  | S754_infinity _ => 0
  | S754_nan => 0
  end.

Definition values (p : list float) : list Z := map float_val p.

(** A double with its value. *)
Definition valued (l : list float) : list (float * Z) :=
  map (fun x => (x, float_val x)) l.

(** [<] and [<=] on two doubles agree with the order of their values. *)
Definition agree (a b : float * Z) : bool :=
  Bool.eqb (PrimFloat.ltb (fst a) (fst b)) (snd a <? snd b) &&
  Bool.eqb (PrimFloat.leb (fst a) (fst b)) (snd a <=? snd b).

(** The difference of two doubles is the double of the difference. *)
Definition exact_sub (a b : float * Z) : bool :=
  float_val (PrimFloat.sub (fst a) (fst b)) =? snd a - snd b.

(** The arithmetic a finder can perform on [p] is exact: among [0], the
    prices and the differences of two of them, comparisons agree with the
    values (so none is NaN or an unordered infinity), and no difference of
    two of [0] and the prices is rounded. *)
Definition exact (p : list float) : bool :=
  let w := valued (working p) in
  let v := valued (vals p) in
  forallb (fun a => forallb (agree a) w) w &&
  forallb (fun a => forallb (exact_sub a) v) v.

Lemma float_val_zero : float_val 0%float = 0.
Proof. vm_compute. reflexivity. Qed.

Lemma valued_In l x : In x l -> In (x, float_val x) (valued l).
Proof. intros H. unfold valued. now apply (in_map (fun x => (x, float_val x))). Qed.

Lemma exact_agree p x y :
  exact p = true -> In x (working p) -> In y (working p) ->
  PrimFloat.ltb x y = (float_val x <? float_val y) /\
  PrimFloat.leb x y = (float_val x <=? float_val y).
Proof.
  unfold exact. cbv zeta. intros H Hx Hy. apply andb_prop in H. destruct H as [H _].
  rewrite forallb_forall in H. specialize (H _ (valued_In _ x Hx)).
  rewrite forallb_forall in H. specialize (H _ (valued_In _ y Hy)).
  unfold agree in H. cbn [fst snd] in H. apply andb_prop in H. destruct H as [H1 H2].
  apply Bool.eqb_prop in H1, H2. now split.
Qed.

Lemma exact_difference p a b :
  exact p = true -> In a (vals p) -> In b (vals p) ->
  float_val (PrimFloat.sub a b) = float_val a - float_val b.
Proof.
  unfold exact. cbv zeta. intros H Ha Hb. apply andb_prop in H. destruct H as [_ H].
  rewrite forallb_forall in H. specialize (H _ (valued_In _ a Ha)).
  rewrite forallb_forall in H. specialize (H _ (valued_In _ b Hb)).
  unfold exact_sub in H. cbn [fst snd] in H. now apply Z.eqb_eq in H.
Qed.

Lemma exact_faithful p : exact p = true -> faithful float_val p.
Proof.
  intros H. split; [exact float_val_zero|]. split.
  - intros a b Ha Hb. exact (exact_difference p a b H Ha Hb).
  - intros x y Hx Hy. cbn [num_lt num_gt float_num Z_num]. split.
    + exact (proj1 (exact_agree p x y H Hx Hy)).
    + rewrite Z.gtb_ltb. exact (proj1 (exact_agree p y x H Hy Hx)).
Qed.

(** On an input whose arithmetic is exact the finders run on doubles as
    on the exact values. *)
Lemma findBestTrade_exact p :
  exact p = true -> findBestTrade p = findBestTrade (values p).
Proof. intros H. exact (findBestTrade_sim float_val p (exact_faithful p H)). Qed.

Lemma findBestTradeFast_exact p :
  exact p = true -> findBestTradeFast p = findBestTradeFast (values p).
Proof. intros H. exact (findBestTradeFast_sim float_val p (exact_faithful p H)). Qed.




Lemma len_values (p : list float) : len (values p) = len p.
Proof. unfold values, len. now rewrite length_map. Qed.

Lemma valid_pair_values (p : list float) b s :
  valid_pair (values p) b s <-> valid_pair p b s.
Proof. unfold valid_pair. now rewrite len_values. Qed.


(** The check refuses the inputs on which binary64 departs from exact
    arithmetic: a rounded difference, NaN, an infinity. *)
Lemma exact_refuses_inexact_inputs :
  exact [-9007199254740992; 0; 1]%float = false /\
  exact [9007199254740992; 5; 6; 0; -1]%float = false /\
  exact [nan; 1; 2]%float = false /\
  exact [infinity; 1; 2]%float = false /\
  exact [infinity]%float = false.
Proof. repeat split; vm_compute; reflexivity. Qed.

(** * Properties of the finders *)

(** C1.  Agreement of realized profit fails: on [[10,1,9,0,1]] the scan from
    index 0 restarts at index 3, the deepest drop, and never tries the buy
    at index 1; [findBestTrade] returns (3,4) with profit 1 while
    [findBestTradeFast] returns (1,2) with profit 8, in exact arithmetic
    and in binary64 alike. *)
Theorem finders_realized_profit_differs :
  (findBestTrade [10; 1; 9; 0; 1] = Some (3, 4) /\
   findBestTradeFast [10; 1; 9; 0; 1] = Some (1, 2) /\
   profit [10; 1; 9; 0; 1] (3, 4) = 1 /\
   profit [10; 1; 9; 0; 1] (1, 2) = 8) /\
  (findBestTrade [10; 1; 9; 0; 1]%float = Some (3, 4) /\
   findBestTradeFast [10; 1; 9; 0; 1]%float = Some (1, 2) /\
   profit [10; 1; 9; 0; 1]%float (3, 4) = 1%float /\
   profit [10; 1; 9; 0; 1]%float (1, 2) = 8%float).
Proof. repeat split; vm_compute; reflexivity. Qed.

(** C2.  [findBestTrade] does not maximize: on [[3,1,2,0,0]] it returns
    (0,0) although buying at index 1 and selling at index 2 earns 1, and the
    restart of the scan from index 0 at index 3 is what skips that pair;
    in exact arithmetic and in binary64 alike. *)
Theorem findBestTrade_misses_profitable_pair :
  (findBestTrade [3; 1; 2; 0; 0] = Some (0, 0) /\
   valid_pair [3; 1; 2; 0; 0] 1 2 /\
   profit [3; 1; 2; 0; 0] (1, 2) = 1 /\
   profitable [3; 1; 2; 0; 0] /\
   fst (findBestTrade_run 5 [3; 1; 2; 0; 0]) = [0; 3]) /\
  (findBestTrade [3; 1; 2; 0; 0]%float = Some (0, 0) /\
   valid_pair [3; 1; 2; 0; 0]%float 1 2 /\
   profit [3; 1; 2; 0; 0]%float (1, 2) = 1%float /\
   fst (findBestTrade_run 5 [3; 1; 2; 0; 0]%float) = [0; 3]).
Proof.
  assert (Hv : valid_pair [3; 1; 2; 0; 0] 1 2) by (unfold valid_pair, len; cbn; lia).
  assert (Hf : valid_pair [3; 1; 2; 0; 0]%float 1 2)
    by (unfold valid_pair, len; cbn; lia).
  repeat split; try apply Hv; try apply Hf; try (vm_compute; reflexivity).
  exists 1, 2. split; [exact Hv | reflexivity].
Qed.




(** C4.  The seven scenarios of the test suite: both finders return the
    expected pair on each input, in exact arithmetic and in binary64. *)
Theorem scenarios_return_expected_pairs :
  ((findBestTrade [7; 1; 5; 3; 6; 4] = Some (1, 4) /\
    findBestTradeFast [7; 1; 5; 3; 6; 4] = Some (1, 4)) /\
   (findBestTrade [7; 6; 4; 3; 1] = Some (0, 0) /\
    findBestTradeFast [7; 6; 4; 3; 1] = Some (0, 0)) /\
   (findBestTrade [1; 2; 3; 4; 5] = Some (0, 4) /\
    findBestTradeFast [1; 2; 3; 4; 5] = Some (0, 4)) /\
   (findBestTrade [3; 3; 3] = Some (0, 0) /\
    findBestTradeFast [3; 3; 3] = Some (0, 0)) /\
   (findBestTrade [20; 18; 15; 8; 3; 6; 10; 4; 12] = Some (4, 8) /\
    findBestTradeFast [20; 18; 15; 8; 3; 6; 10; 4; 12] = Some (4, 8)) /\
   (findBestTrade (@nil Z) = Some (0, 0) /\
    findBestTradeFast (@nil Z) = Some (0, 0) /\
    findBestTrade [5] = Some (0, 0) /\ findBestTradeFast [5] = Some (0, 0)) /\
   (findBestTrade [1; 12; 1; 12] = Some (0, 1) /\
    findBestTradeFast [1; 12; 1; 12] = Some (0, 1))) /\
  ((findBestTrade [7; 1; 5; 3; 6; 4]%float = Some (1, 4) /\
    findBestTradeFast [7; 1; 5; 3; 6; 4]%float = Some (1, 4)) /\
   (findBestTrade [7; 6; 4; 3; 1]%float = Some (0, 0) /\
    findBestTradeFast [7; 6; 4; 3; 1]%float = Some (0, 0)) /\
   (findBestTrade [1; 2; 3; 4; 5]%float = Some (0, 4) /\
    findBestTradeFast [1; 2; 3; 4; 5]%float = Some (0, 4)) /\
   (findBestTrade [3; 3; 3]%float = Some (0, 0) /\
    findBestTradeFast [3; 3; 3]%float = Some (0, 0)) /\
   (findBestTrade [20; 18; 15; 8; 3; 6; 10; 4; 12]%float = Some (4, 8) /\
    findBestTradeFast [20; 18; 15; 8; 3; 6; 10; 4; 12]%float = Some (4, 8)) /\
   (findBestTrade (@nil float) = Some (0, 0) /\
    findBestTradeFast (@nil float) = Some (0, 0) /\
    findBestTrade [5]%float = Some (0, 0) /\
    findBestTradeFast [5]%float = Some (0, 0)) /\
   (findBestTrade [1; 12; 1; 12]%float = Some (0, 1) /\
    findBestTradeFast [1; 12; 1; 12]%float = Some (0, 1))).
Proof. repeat split; vm_compute; reflexivity. Qed.

(** C5.  On a sequence of at least two prices both finders return indices
    into the sequence, the buy index not after the sell index; for every
    kind of number, binary64 included. *)
Theorem results_are_ordered_indices {N : Type} {num : Num N} (p : list N) :
  2 <= len p ->
  exists b1 s1 b2 s2,
    findBestTrade p = Some (b1, s1) /\ findBestTradeFast p = Some (b2, s2) /\
    (0 <= b1 <= s1 /\ s1 <= len p - 1) /\ (0 <= b2 <= s2 /\ s2 <= len p - 1).
Proof.
  intros Hn.
  destruct (findBestTrade_idx p) as (b1 & s1 & H1 & G1).
  destruct (findBestTradeFast_idx p) as (b2 & s2 & H2 & G2).
  exists b1, s1, b2, s2. unfold valid_pair in *.
  split; [exact H1|]. split; [exact H2|]. lia.
Qed.

Lemma results_are_ordered_indices_witness :
  exists b1 s1 b2 s2,
    findBestTrade [7; 1; 5; 3; 6; 4]%float = Some (b1, s1) /\
    findBestTradeFast [7; 1; 5; 3; 6; 4]%float = Some (b2, s2) /\
    (0 <= b1 <= s1 /\ s1 <= len [7; 1; 5; 3; 6; 4]%float - 1) /\
    (0 <= b2 <= s2 /\ s2 <= len [7; 1; 5; 3; 6; 4]%float - 1).
Proof.
  apply (results_are_ordered_indices [7; 1; 5; 3; 6; 4]%float).
  vm_compute. discriminate.
Defined.

(** C6.  Both finders return a result on every sequence and no read they
    perform is out of bounds: a read outside [0 .. length-1] is exactly what
    makes [get], and with it the finder, yield [None]; for every kind of
    number, binary64 included. *)
Theorem finders_total_and_in_bounds {N : Type} {num : Num N} (p : list N) :
  (exists r, findBestTrade p = Some r) /\
  (exists r, findBestTradeFast p = Some r) /\
  (forall i, get p i = None <-> ~ (0 <= i < len p)).
Proof.
  destruct (findBestTrade_idx p) as (b1 & s1 & H1 & _).
  destruct (findBestTradeFast_idx p) as (b2 & s2 & H2 & _).
  split; [now exists (b1, s1)|]. split; [now exists (b2, s2)|].
  intros i. apply get_None.
Qed.




(** C8.  On a sequence of length 0 or 1 both finders return (0,0); for
    every kind of number, binary64 included. *)
Theorem short_sequences_return_origin {N : Type} {num : Num N} (p : list N) :
  (length p <= 1)%nat ->
  findBestTrade p = Some (0, 0) /\ findBestTradeFast p = Some (0, 0).
Proof.
  intros Hn.
  destruct (findBestTrade_idx p) as (b1 & s1 & H1 & G1).
  destruct (findBestTradeFast_idx p) as (b2 & s2 & H2 & G2).
  rewrite H1, H2. unfold valid_pair, len in *.
  split; [destruct G1 as [[-> ->]|Hv] | destruct G2 as [[-> ->]|Hv]];
    reflexivity || lia.
Qed.

Lemma short_sequences_return_origin_witness :
  findBestTrade [5]%float = Some (0, 0) /\
  findBestTradeFast [5]%float = Some (0, 0).
Proof.
  apply (short_sequences_return_origin [5]%float). simpl. lia.
Defined.

(** C9, as stated, fails: with the baseline computed once per outer
    iteration and not refreshed, the scan from index 0 of [[1,5,3]] first
    records (0,1) and then overwrites it with (0,2), whose profit 2 also
    exceeds the stale baseline 0; in exact arithmetic and in binary64. *)
Lemma hoisted_baseline_changes_result :
  (findBestTradeHoisted [1; 5; 3] = Some (0, 2) /\
   findBestTrade [1; 5; 3] = Some (0, 1) /\
   findBestTradeHoisted [1; 5; 3] <> findBestTrade [1; 5; 3]) /\
  (findBestTradeHoisted [1; 5; 3]%float = Some (0, 2) /\
   findBestTrade [1; 5; 3]%float = Some (0, 1) /\
   findBestTradeHoisted [1; 5; 3]%float <> findBestTrade [1; 5; 3]%float).
Proof.
  repeat split; try (vm_compute; reflexivity); vm_compute; discriminate.
Qed.

(** C9, amended.  Computing the baseline once per outer iteration returns
    the same pair as [findBestTrade] on every input provided the baseline
    is also set to the new profit whenever the inner loop replaces the best
    pair; for every kind of number, binary64 included. *)
Theorem cached_baseline_same_result {N : Type} {num : Num N} (p : list N) :
  findBestTradeCached p = findBestTrade p.
Proof.
  destruct (outer_loop_cached_sim p (Z.to_nat (len p - 0)) 0 qinit qinit)
    as (c' & o' & Hc & Ho & (Eb & Es & _)).
  - lia.
  - lia.
  - unfold same_but_baseline. now repeat split.
  - left. now split.
  - unfold findBestTradeCached, findBestTrade, pair_of.
    rewrite Hc, Ho. cbn [bind]. now rewrite Eb, Es.
Qed.

(** C10.  [findBestTrade] terminates: a budget of [length p] executions of
    the outer body suffices and gives the result of the recursion on
    [length p - currentIndex]; the indices the body runs at are strictly
    increasing and below [length p - 1]; a scan that lowers the flag
    leaves [nextTradeStartIndex] above the current index, and the index of
    the next outer iteration exceeds the current one; for every kind of
    number, binary64 included. *)
Theorem findBestTrade_terminates {N : Type} {num : Num N} (p : list N) :
  (exists visited st,
      findBestTrade_run (length p) p = (visited, Some (Some st)) /\
      findBestTrade p = Some (pair_of st) /\
      StronglySorted Z.lt visited /\
      Forall (fun c => 0 <= c < len p - 1) visited /\
      (length visited <= length p)%nat) /\
  (forall cur st st',
      scan p cur st = Some st' -> isOptimalFound st' = false ->
      cur < nextTradeStartIndex st') /\
  (forall cur st cur' st',
      outer_body p cur st = Some (Next cur' st') -> cur < cur' + 1).
Proof.
  split; [|split].
  - destruct (outer_run_spec outer_body outer_body_advances p (length p) 0 qinit)
      as (Hr & Hall & Hsorted & Hlen); [unfold len; lia|].
    destruct (findBestTrade_idx p) as (b & s & Hrun & _).
    unfold findBestTrade in Hrun |- *. unfold findBestTrade_run.
    destruct (outer_loop outer_body outer_body_advances p 0 qinit) as [st|];
      [|discriminate].
    destruct (outer_run outer_body (length p) p 0 qinit) as [visited r].
    cbn [fst snd] in *. exists visited, st. subst r.
    repeat split; try assumption. unfold len in Hlen. lia.
  - intros cur st st' Hs Hflag. exact (scan_drop p cur st st' Hs Hflag).
  - exact (outer_body_advances p).
Qed.

(** * Further properties, on inputs whose binary64 arithmetic is exact *)

(** X1.  Where the arithmetic on [p] is exact, a pair buy < sell that
    earns more than the pair [findBestTrade] returns was jumped over by a
    restart: it lies strictly between an index [c] and a later index
    [m <= length - 2] whose price is below [p[c]] and lowest among all
    prices after [c]. *)
Theorem findBestTrade_beaten_only_by_skipped (p : list float) :
  exact p = true ->
  exists b s, findBestTrade p = Some (b, s) /\
    forall j k, valid_pair p j k ->
                profit (values p) (j, k) <= profit (values p) (b, s) \/
                skipped (values p) j k.
Proof.
  intros H. destruct (findBestTrade_settles (values p)) as (b & s & Hrun & Hpairs).
  exists b, s. split; [now rewrite (findBestTrade_exact p H)|].
  intros j k Hv. apply Hpairs. now apply valid_pair_values.
Qed.

Lemma findBestTrade_beaten_only_by_skipped_witness :
  exists b s, findBestTrade [3; 1; 2; 0; 0]%float = Some (b, s) /\
    forall j k, valid_pair [3; 1; 2; 0; 0]%float j k ->
                profit (values [3; 1; 2; 0; 0]%float) (j, k) <=
                profit (values [3; 1; 2; 0; 0]%float) (b, s) \/
                skipped (values [3; 1; 2; 0; 0]%float) j k.
Proof.
  apply (findBestTrade_beaten_only_by_skipped [3; 1; 2; 0; 0]%float).
  vm_compute. reflexivity.
Defined.

(** X2.  On at most four prices whose arithmetic is exact no pair can be
    jumped over: [findBestTrade] realizes the same profit as
    [findBestTradeFast], the largest any pair buy < sell earns. *)
Theorem findBestTrade_maximal_below_five (p : list float) :
  len p <= 4 -> exact p = true ->
  exists r1 r2,
    findBestTrade p = Some r1 /\ findBestTradeFast p = Some r2 /\
    profit (values p) r1 = profit (values p) r2 /\
    forall j k, valid_pair p j k ->
                profit (values p) (j, k) <= profit (values p) r1.
Proof.
  intros Hn H.
  destruct (findBestTrade_maximal_below_five_exact (values p))
    as (r1 & r2 & H1 & H2 & Heq & Hmax); [now rewrite len_values|].
  exists r1, r2. rewrite (findBestTrade_exact p H), (findBestTradeFast_exact p H).
  repeat split; try assumption. intros j k Hv. apply Hmax.
  now apply valid_pair_values.
Qed.

Lemma findBestTrade_maximal_below_five_witness :
  exists r1 r2,
    findBestTrade [2; 1; 3; 0]%float = Some r1 /\
    findBestTradeFast [2; 1; 3; 0]%float = Some r2 /\
    profit (values [2; 1; 3; 0]%float) r1 = profit (values [2; 1; 3; 0]%float) r2 /\
    forall j k, valid_pair [2; 1; 3; 0]%float j k ->
                profit (values [2; 1; 3; 0]%float) (j, k) <=
                profit (values [2; 1; 3; 0]%float) r1.
Proof.
  apply (findBestTrade_maximal_below_five [2; 1; 3; 0]%float).
  - vm_compute. discriminate.
  - vm_compute. reflexivity.
Defined.

(** X3.  Where the arithmetic on [p] is exact and no price is below the
    first one, both finders return the same pair: buy at index 0 and sell
    at the first position of the highest price (which is index 0 itself
    when no price exceeds the first). *)
Theorem first_price_lowest_same_pair (p : list float) :
  exact p = true ->
  (forall t, 0 <= t < len p -> price (values p) 0 <= price (values p) t) ->
  exists s, findBestTrade p = Some (0, s) /\ findBestTradeFast p = Some (0, s) /\
            first_peak (values p) (len p) s.
Proof.
  intros H Hlow. destruct (first_lowest_first_peak (values p))
    as (s & H1 & H2 & Hpeak); [now rewrite len_values|].
  exists s. rewrite (findBestTrade_exact p H), (findBestTradeFast_exact p H).
  rewrite len_values in Hpeak.
  split; [exact H1 | split; [exact H2 | exact Hpeak]].
Qed.

Lemma first_price_lowest_same_pair_witness :
  exists s, findBestTrade [1; 12; 1; 12]%float = Some (0, s) /\
            findBestTradeFast [1; 12; 1; 12]%float = Some (0, s) /\
            first_peak (values [1; 12; 1; 12]%float) (len [1; 12; 1; 12]%float) s.
Proof.
  apply (first_price_lowest_same_pair [1; 12; 1; 12]%float).
  - vm_compute. reflexivity.
  - intros t Ht. unfold len in Ht. cbn in Ht. below 4%nat t Ht; by_evaluation.
Defined.

(** X4.  On at least two prices whose arithmetic is exact and whose values
    strictly increase, both finders buy at the first index and sell at the
    last. *)
Theorem increasing_buys_first_sells_last (p : list float) :
  2 <= len p -> exact p = true ->
  (forall i j, 0 <= i < j -> j < len p ->
               price (values p) i < price (values p) j) ->
  findBestTrade p = Some (0, len p - 1) /\
  findBestTradeFast p = Some (0, len p - 1).
Proof.
  intros Hn H Hinc.
  rewrite (findBestTrade_exact p H), (findBestTradeFast_exact p H),
    <- (len_values p).
  apply increasing_buys_first_sells_last_exact; now rewrite len_values.
Qed.

Lemma increasing_buys_first_sells_last_witness :
  findBestTrade [1; 2; 3; 4; 5]%float = Some (0, len [1; 2; 3; 4; 5]%float - 1) /\
  findBestTradeFast [1; 2; 3; 4; 5]%float = Some (0, len [1; 2; 3; 4; 5]%float - 1).
Proof.
  apply (increasing_buys_first_sells_last [1; 2; 3; 4; 5]%float).
  - vm_compute. discriminate.
  - vm_compute. reflexivity.
  - intros i j Hi Hj. unfold len in Hj. cbn in Hj.
    below 5%nat j Hj; below 4%nat i Hi; by_evaluation.
Defined.

(** X6.  Where the arithmetic on [p] is exact and some pair is profitable,
    the pair [findBestTradeFast] returns is a pair of maximal profit, and
    the least of them: no pair of maximal profit buys earlier or sells
    earlier. *)
Theorem findBestTradeFast_returns_least_maximal_pair (p : list float) :
  exact p = true -> profitable (values p) ->
  exists b s, findBestTradeFast p = Some (b, s) /\
    maximal_pair (values p) b s /\
    forall i j, maximal_pair (values p) i j -> b <= i /\ s <= j.
Proof.
  intros H Hprof.
  destruct (findBestTradeFast_correct_exact (values p))
    as (b & s & Hrun & [[_ Hmax]|[Hno _]]); [|contradiction].
  exists b, s. rewrite (findBestTradeFast_exact p H).
  split; [exact Hrun|]. split; [exact Hmax|].
  intros i j Hij. exact (findBestTradeFast_least (values p) b s i j Hrun Hij).
Qed.

Lemma findBestTradeFast_returns_least_maximal_pair_witness :
  exists b s, findBestTradeFast [1; 12; 1; 12]%float = Some (b, s) /\
    maximal_pair (values [1; 12; 1; 12]%float) b s /\
    forall i j, maximal_pair (values [1; 12; 1; 12]%float) i j ->
                b <= i /\ s <= j.
Proof.
  apply (findBestTradeFast_returns_least_maximal_pair [1; 12; 1; 12]%float).
  - vm_compute. reflexivity.
  - exists 0, 1. split; [unfold valid_pair, len; cbn; lia | vm_compute; reflexivity].
Defined.

(** The state of a binary64 run, read in exact values. *)
Definition read_state (st : QState float) : QState Z :=
  mkQ (bestBuyIndex st) (bestSellIndex st) (float_val (currentBestProfit st))
      (float_val (minPriceDrop st)) (isOptimalFound st) (nextTradeStartIndex st).

(** X9.  Where the arithmetic on [p] is exact, one scan of [findBestTrade]
    from [currentIndex] (lines 28-61), started with a best pair that is
    (0,0) or profitable, leaves the flag up exactly when no later price is
    below the current one; otherwise [nextTradeStartIndex] is the first
    position of the lowest later price and [minPriceDrop] is that price
    less the current one. *)
Theorem scan_marks_first_lowest_later_price (p : list float) (cur : Z)
  (st : QState float) :
  exact p = true -> 0 <= cur < len p - 1 -> Qgood (values p) (read_state st) ->
  exists st', scan p cur st = Some st' /\
              drop_info (values p) cur (len p) (read_state st').
Proof.
  intros H Hc Hg.
  destruct (scan_spec (values p) cur (read_state st)) as (sz & Hz & _ & Hd);
    [now rewrite len_values | exact Hg |].
  assert (HR : Ridx st (read_state st)) by now repeat split.
  pose proof (scan_sim float_val p (exact_faithful p H) cur st (read_state st) HR)
    as Hs.
  fold (values p) in Hs. rewrite Hz in Hs.
  destruct (scan p cur st) as [st'|]; cbn [option_rel] in Hs; [|contradiction].
  exists st'. split; [reflexivity|].
  destruct Hs as ((_ & _ & Eo & En) & Ed & _).
  rewrite len_values in Hd. unfold drop_info in *.
  cbn [read_state isOptimalFound minPriceDrop nextTradeStartIndex].
  now rewrite <- Eo, <- En, <- Ed.
Qed.

Lemma scan_marks_first_lowest_later_price_witness :
  exists st',
    scan [8; 3; 6; 10; 4]%float 0 qinit = Some st' /\
    drop_info (values [8; 3; 6; 10; 4]%float) 0
      (len [8; 3; 6; 10; 4]%float) (read_state st').
Proof.
  apply (scan_marks_first_lowest_later_price
           [8; 3; 6; 10; 4]%float 0 qinit).
  - vm_compute. reflexivity.
  - vm_compute. split; [discriminate | reflexivity].
  - left. split; reflexivity.
Defined.

(** X10.  On prices whose arithmetic is exact and whose values strictly
    decrease no restart ever jumps, because the lowest later price is
    always the last one: the outer body runs at every index
    0, 1, ..., length - 2. *)
Theorem findBestTrade_scans_every_index_when_decreasing (p : list float) :
  exact p = true ->
  (forall i j, 0 <= i < j -> j < len p ->
               price (values p) j < price (values p) i) ->
  fst (findBestTrade_run (length p) p) = upto (length p - 1) 0.
Proof.
  intros H Hdec. unfold findBestTrade_run.
  rewrite (outer_run_sim float_val p (exact_faithful p H) (length p) 0 qinit qinit)
    by now repeat split.
  fold (values p).
  replace (length p) with (length (values p)) by (unfold values; apply length_map).
  apply findBestTrade_scans_every_index_when_decreasing_exact.
  now rewrite len_values.
Qed.

Lemma findBestTrade_scans_every_index_when_decreasing_witness :
  fst (findBestTrade_run (length [7; 6; 4; 3; 1]%float) [7; 6; 4; 3; 1]%float) =
  upto (length [7; 6; 4; 3; 1]%float - 1) 0.
Proof.
  apply (findBestTrade_scans_every_index_when_decreasing [7; 6; 4; 3; 1]%float).
  - vm_compute. reflexivity.
  - intros i j Hi Hj. unfold len in Hj. cbn in Hj.
    below 5%nat j Hj; below 4%nat i Hi; by_evaluation.
Defined.

(** * Further properties, in exact arithmetic *)

(** ** Prices that never rise *)

(** X5.  When no later price exceeds an earlier one (decreasing or flat
    prices) both finders return (0,0). *)
Theorem no_rise_returns_origin (p : list Z) :
  (forall i j, valid_pair p i j -> price p j <= price p i) ->
  findBestTrade p = Some (0, 0) /\ findBestTradeFast p = Some (0, 0).
Proof.
  intros Hflat.
  destruct (findBestTrade_good p) as (b1 & s1 & H1 & G1).
  destruct (findBestTradeFast_max p) as (b2 & s2 & H2 & G2 & _).
  rewrite H1, H2.
  split; [destruct G1 as [[-> ->]|[Hv Hlt]] | destruct G2 as [[-> ->]|[Hv Hlt]]];
    try reflexivity; specialize (Hflat _ _ Hv); lia.
Qed.

Lemma no_rise_returns_origin_witness :
  findBestTrade [7; 6; 4; 3; 1] = Some (0, 0) /\
  findBestTradeFast [7; 6; 4; 3; 1] = Some (0, 0).
Proof.
  apply (no_rise_returns_origin [7; 6; 4; 3; 1]).
  intros i j [[Hi Hij] Hj]. unfold len in Hj. cbn in Hj.
  below 5%nat j Hj; below 4%nat i Hi; by_evaluation.
Defined.

(** ** Shifting every price by a constant *)

Definition shift (c : Z) (p : list Z) : list Z := map (fun x => x + c) p.

Lemma len_shift c p : len (shift c p) = len p.
Proof. unfold len, shift. now rewrite length_map. Qed.

Lemma get_shift c p i : get (shift c p) i = option_map (fun x => x + c) (get p i).
Proof.
  unfold get, shift. destruct (i <? 0); [reflexivity|]. apply nth_error_map.
Qed.

Lemma ltb_shift a b c : (a + c <? b + c) = (a <? b).
Proof. destruct (Z.ltb_spec (a + c) (b + c)), (Z.ltb_spec a b); lia || reflexivity. Qed.

Lemma sub_shift a b c : a + c - (b + c) = a - b.
Proof. lia. Qed.

Lemma for_loop_ext {S : Type} (b1 b2 : Z -> S -> option S) :
  (forall i s, b1 i s = b2 i s) ->
  forall (k : nat) lo s, for_loop k lo b1 s = for_loop k lo b2 s.
Proof.
  intros Heq. induction k as [|k IH]; intros lo s; cbn [for_loop]; [reflexivity|].
  rewrite Heq. destruct (b2 lo s); cbn [bind]; [apply IH | reflexivity].
Qed.

Lemma inner_body_shift c p cur fut st :
  inner_body (shift c p) cur fut st = inner_body p cur fut st.
Proof.
  unfold inner_body. rewrite !get_shift.
  destruct (get p fut), (get p cur), (get p (bestSellIndex st)),
    (get p (bestBuyIndex st)); cbn [option_map bind]; try reflexivity.
  now rewrite !sub_shift.
Qed.

Lemma outer_body_shift c p cur st :
  outer_body (shift c p) cur st = outer_body p cur st.
Proof.
  unfold outer_body, scan, for_range, restart. rewrite len_shift.
  rewrite (for_loop_ext (inner_body (shift c p) cur) (inner_body p cur)
             (inner_body_shift c p cur)).
  reflexivity.
Qed.

Lemma outer_loop_shift c p :
  forall (n : nat) cur st,
    (Z.to_nat (len p - cur) <= n)%nat ->
    outer_loop outer_body outer_body_advances (shift c p) cur st =
    outer_loop outer_body outer_body_advances p cur st.
Proof.
  induction n as [|n IH]; intros cur st Hn;
    rewrite (outer_loop_eq _ _ (shift c p)), (outer_loop_eq _ _ p),
      len_shift, outer_body_shift;
    destruct (cur <? len p - 1) eqn:Hc; try reflexivity;
    apply Z.ltb_lt in Hc; [lia|].
  destruct (outer_body p cur st) as [[st'|cur' st']|] eqn:Hb; try reflexivity.
  apply IH. apply outer_body_advances in Hb. lia.
Qed.

Lemma fast_body_shift c p i st :
  fast_body (shift c p) i st = fast_body p i st.
Proof.
  unfold fast_body. rewrite !get_shift.
  destruct (get p i), (get p (minPriceIndex st)); cbn [option_map bind];
    try reflexivity.
  now rewrite ltb_shift, sub_shift.
Qed.

(** X7.  Adding the same amount to every price changes the result of
    neither finder. *)
Theorem finders_ignore_price_shift (c : Z) (p : list Z) :
  findBestTrade (shift c p) = findBestTrade p /\
  findBestTradeFast (shift c p) = findBestTradeFast p.
Proof.
  split.
  - unfold findBestTrade.
    now rewrite (outer_loop_shift c p (Z.to_nat (len p - 0)) 0 qinit (le_n _)).
  - unfold findBestTradeFast, for_range. rewrite len_shift.
    now rewrite (for_loop_ext (fast_body (shift c p)) (fast_body p)
                   (fast_body_shift c p)).
Qed.

(** ** Appending prices *)

Lemma price_app p q k : 0 <= k < len p -> price (p ++ q) k = price p k.
Proof.
  unfold price, len. intros Hk. apply app_nth1. lia.
Qed.

(** X8.  Appending later prices never lowers the profit
    [findBestTradeFast] realizes. *)
Theorem findBestTradeFast_profit_grows_with_data (p q : list Z) :
  exists r1 r2,
    findBestTradeFast p = Some r1 /\ findBestTradeFast (p ++ q) = Some r2 /\
    profit p r1 <= profit (p ++ q) r2.
Proof.
  destruct (findBestTradeFast_max p) as (b1 & s1 & H1 & G1 & _).
  destruct (findBestTradeFast_max (p ++ q)) as (b2 & s2 & H2 & G2 & Hmax).
  exists (b1, s1), (b2, s2). split; [exact H1|]. split; [exact H2|].
  destruct G1 as [[-> ->]|[Hv Hlt]].
  - unfold profit. znum. cbn [fst snd]. destruct G2 as [[-> ->]|[_ Hlt]]; lia.
  - assert (Hv' : valid_pair (p ++ q) b1 s1).
    { unfold valid_pair, len in *. rewrite length_app. lia. }
    specialize (Hmax b1 s1 Hv'). unfold profit, valid_pair in *. znum. cbn [fst snd] in *.
    rewrite !(price_app p q) in Hmax by lia. exact Hmax.
Qed.

(** ** The early exit *)

(** X11.  When no price is below the first one (and there are at least two
    prices) [findBestTrade] returns after a single scan: the outer body runs
    at index 0 only. *)
Theorem findBestTrade_single_scan_when_first_lowest (p : list Z) (fuel : nat) :
  2 <= len p ->
  (forall t, 0 <= t < len p -> price p 0 <= price p t) ->
  exists st, findBestTrade_run (S fuel) p = ([0], Some (Some st)).
Proof.
  intros Hn Hlow.
  destruct (scan_spec p 0 qinit) as (s1 & Hscan & _ & Hdrop);
    [lia | left; now split |].
  exists s1. unfold findBestTrade_run. cbn [outer_run].
  destruct (0 <? len p - 1) eqn:Hlt; [|apply Z.ltb_ge in Hlt; lia].
  unfold outer_body. rewrite Hscan. cbn [bind]. unfold restart.
  destruct Hdrop as [(Ho & _)|(_ & Hnext & _ & Hbelow & _)].
  - now rewrite Ho.
  - specialize (Hlow (nextTradeStartIndex s1)). lia.
Qed.

Lemma findBestTrade_single_scan_when_first_lowest_witness :
  exists st, findBestTrade_run 1 [1; 12; 1; 12] = ([0], Some (Some st)).
Proof.
  apply (findBestTrade_single_scan_when_first_lowest [1; 12; 1; 12] 0).
  - vm_compute. discriminate.
  - intros t Ht. unfold len in Ht. cbn in Ht. below 4%nat t Ht; by_evaluation.
Defined.
